(** * A retrieval-augmented PDF chat demo: [app.py] and [audio_app.py]

    The two Streamlit scripts are glue code around PyPDF2, langchain and
    FAISS.  The functions of the scripts are embedded as they are written;
    the library calls they make are either interfaces ([Externals], for
    PDF parsing, CSV loading, embedding, index construction and the chat
    model) or, for the text splitter and the conversation memory, small
    executable models of the library routines the scripts invoke
    ([Module LangChain]).  Python strings are sequences of code points:
    lengths, white space and slices are counted in characters, not in
    bytes. *)

From Stdlib Require Import ZArith NArith Ascii String.
From stdpp Require Import gmap strings list.

Local Open Scope string_scope.
Local Open Scope list_scope.
Local Open Scope Z_scope.

(** ** Python values: results and strings *)

Module Py.

(** An exception is identified by the name of its class. *)
Definition exn := string.

Inductive result (A : Type) : Type :=
| Ok (a : A)
| Raise (e : exn).
Arguments Ok {A} a.
Arguments Raise {A} e.

#[export] Instance result_ret : MRet result := fun A a => Ok a.
#[export] Instance result_bind : MBind result := fun A B k r =>
  match r with
  | Ok a => k a
  | Raise e => Raise e
  end.

(** A [str] is a sequence of Unicode code points; a character is one code
    point. *)
Definition char : Type := N.
Definition str : Type := list char.

(** The character, and the [str], that an ASCII literal denotes. *)
Definition ch (a : ascii) : char := N_of_ascii a.
Definition lit (s : string) : str := map ch (list_ascii_of_string s).
Arguments ch : simpl never.
Arguments lit : simpl never.

(** [len(s)]: the number of code points. *)
Definition len (s : str) : Z := Z.of_nat (length s).

(** The line break, U+000A. *)
Definition newline : str := [10%N].

(** [str.isspace] on one character: U+0009 to U+000D, U+001C to U+0020,
    U+0085, U+00A0, U+1680, U+2000 to U+200A, U+2028, U+2029, U+202F,
    U+205F and U+3000. *)
Definition isspace (c : char) : bool :=
  (((9 <=? c) && (c <=? 13)) || ((28 <=? c) && (c <=? 32))
   || (c =? 133) || (c =? 160) || (c =? 5760)
   || ((8192 <=? c) && (c <=? 8202))
   || (c =? 8232) || (c =? 8233) || (c =? 8239) || (c =? 8287)
   || (c =? 12288))%N.

Fixpoint lstrip (s : str) : str :=
  match s with
  | [] => []
  | c :: s' => if isspace c then lstrip s' else s
  end.

Fixpoint rstrip (s : str) : str :=
  match s with
  | [] => []
  | c :: s' =>
      match rstrip s' with
      | [] => if isspace c then [] else [c]
      | r => c :: r
      end
  end.

(** [s.strip()] *)
Definition strip (s : str) : str := rstrip (lstrip s).

(** [sep.join(parts)] *)
Fixpoint join (sep : str) (parts : list str) : str :=
  match parts with
  | [] => []
  | [p] => p
  | p :: ps => p ++ sep ++ join sep ps
  end.

(** [list(s)]: the one-character strings of [s]. *)
Definition chars (s : str) : list str := map (fun c => [c]) s.

(** [s.startswith(p)] *)
Fixpoint startswith (s p : str) {struct p} : bool :=
  match p, s with
  | [], _ => true
  | _ :: _, [] => false
  | a :: p', b :: s' => (a =? b)%N && startswith s' p'
  end.

(** The pieces of [s] between the leftmost non-overlapping occurrences of
    a non-empty [sep]; [skip] counts the characters of a matched
    separator that are still to be passed over.  The head of the result
    is the piece that is being read. *)
Fixpoint split_go (sep : str) (skip : nat) (s : str) : list str :=
  match s with
  | [] => [[]]
  | c :: s' =>
      match skip with
      | S k => split_go sep k s'
      | O =>
          if startswith s sep
          then [] :: split_go sep (length sep - 1) s'
          else match split_go sep 0 s' with
               | [] => [[c]]
               | p :: ps => (c :: p) :: ps
               end
      end
  end.

(** [re.split(re.escape(sep), s)] for a non-empty [sep]. *)
Definition split (sep s : str) : list str := split_go sep 0 s.

End Py.

Export Py.

(** ** Chat messages and the external collaborators *)

(** [HumanMessage(content=...)] and [AIMessage(content=...)]. *)
Inductive Message : Type :=
| HumanMessage (text : str)
| AIMessage (text : str).

Definition content (m : Message) : str :=
  match m with
  | HumanMessage text => text
  | AIMessage text => text
  end.

#[export] Instance Message_eq_dec : EqDecision Message.
Proof. solve_decision. Defined.

(** What the scripts obtain from PyPDF2, the CSV loader, the embedding
    model, FAISS, the hosted chat model and [htmlTemplates]: each call
    either returns or raises. *)
Class Externals : Type := {
  UploadedFile : Type;
  Page : Type;
  Document : Type;
  Embeddings : Type;
  VectorStore : Type;
  (** [PdfReader(f).pages], for an uploaded file or a path *)
  PdfReader : UploadedFile + str -> result (list Page);
  (** [page.extract_text()] *)
  extract_text : Page -> result str;
  (** [CSVLoader(file_path=p, encoding="utf-8", csv_args=...).load()] *)
  CSVLoader_load : str -> result (list Document);
  (** [HuggingFaceInstructEmbeddings(model_name=m)] *)
  HuggingFaceInstructEmbeddings : str -> result Embeddings;
  (** [FAISS.from_documents(data, embedding=e)] *)
  FAISS_from_documents : list Document -> Embeddings -> result VectorStore;
  (** [FAISS.from_texts(texts=t, embedding=e)] *)
  FAISS_from_texts : list str -> Embeddings -> result VectorStore;
  (** Retrieval over the store followed by the chat-model call, on the
      question and the turns recorded so far: the answer text, or the
      exception of the failing call. *)
  chain_answer : VectorStore -> str -> list Message -> result str;
  css : str;
  user_template : str;
  bot_template : str
}.

(** ** Objects, session state and effects *)

Section Runtime.
Context `{Externals}.

(** Message lists are mutable and shared: they live in a store. *)
Definition loc := nat.

(** A conversation chain: the retriever's vector store and the list of
    messages held by its buffer memory. *)
Record Chain : Type := {
  retriever : VectorStore;
  memory : loc
}.

(** The values the scripts keep in [st.session_state]. *)
Inductive value : Type :=
| VNone
| VChain (c : Chain)
| VList (l : loc).

Inductive event : Type :=
| EvPdfReader (f : UploadedFile + str)
| EvExtractText (p : Page)
| EvWrite (body : str).

Record World : Type := {
  session_state : gmap string value;
  heap : gmap loc (list Message);
  trace : list event
}.

Definition set_session (f : gmap string value -> gmap string value)
    (w : World) : World :=
  {| session_state := f (session_state w); heap := heap w; trace := trace w |}.

Definition set_heap (f : gmap loc (list Message) -> gmap loc (list Message))
    (w : World) : World :=
  {| session_state := session_state w; heap := f (heap w); trace := trace w |}.

Definition log (e : event) (w : World) : World :=
  {| session_state := session_state w; heap := heap w;
     trace := trace w ++ [e] |}.

(** The messages of a list object. *)
Definition read_list (w : World) (l : loc) : list Message :=
  default [] (heap w !! l).

(** A computation: the result, or the raised exception, with the world
    as the computation left it. *)
Definition M (A : Type) : Type := World -> result A * World.

#[export] Instance M_ret : MRet M := fun A a w => (Ok a, w).
#[export] Instance M_bind : MBind M := fun A B k m w =>
  match m w with
  | (Ok a, w') => k a w'
  | (Raise e, w') => (Raise e, w')
  end.

Definition lift {A} (r : result A) : M A := fun w => (r, w).
Definition raise {A} (e : exn) : M A := fun w => (Raise e, w).
Definition modify (f : World -> World) : M unit := fun w => (Ok tt, f w).
Definition get_world : M World := fun w => (Ok w, w).

(** [st.write(body, unsafe_allow_html=True)] *)
Definition st_write (body : str) : M unit := modify (log (EvWrite body)).

(** [key in st.session_state] *)
Definition session_has (key : string) : M bool :=
  fun w => (Ok (bool_decide (is_Some (session_state w !! key))), w).

(** [st.session_state.key] *)
Definition session_get (key : string) : M value :=
  fun w => match session_state w !! key with
           | Some v => (Ok v, w)
           | None => (Raise "AttributeError", w)
           end.

(** [st.session_state.key = v] *)
Definition session_set (key : string) (v : value) : M unit :=
  modify (set_session <[key := v]>).

(** A new, empty list object. *)
Definition new_list : M loc :=
  fun w => let l := fresh (dom (heap w)) in
           (Ok l, set_heap <[l := []]> w).

(** [s.replace(old, new)] for a non-empty [old]. *)
Definition replace (old new s : str) : str := join new (split old s).

End Runtime.

(** ** The langchain routines the scripts call *)

Module LangChain.

(** *** [CharacterTextSplitter] *)

Record TextSplitter : Type := {
  _separator : str;
  _chunk_size : Z;
  _chunk_overlap : Z
}.

(** [CharacterTextSplitter(separator=, chunk_size=, chunk_overlap=,
    length_function=len)]: the constructor of the base class rejects an
    overlap larger than the chunk size. *)
Definition CharacterTextSplitter (separator : str)
    (chunk_size chunk_overlap : Z) : result TextSplitter :=
  if chunk_overlap >? chunk_size then Raise "ValueError"
  else Ok {| _separator := separator;
             _chunk_size := chunk_size;
             _chunk_overlap := chunk_overlap |}.

(** The candidate units: the non-empty pieces between separators, or
    the single characters when the separator is empty. *)
Definition _split_text (text separator : str) : list str :=
  let splits :=
    match separator with
    | [] => chars text
    | _ => split separator text
    end in
  filter (fun s => s <> []) splits.

(** [_join_docs]: join, strip, and drop the result when it is empty. *)
Definition _join_docs (docs : list str) (separator : str)
    : option str :=
  let text := strip (join separator docs) in
  if decide (text = []) then None else Some text.

Section Merge.
Variable ts : TextSplitter.
Variable separator : str.

Definition separator_len : Z := len separator.

(** The separator is counted once the document has more than [n]
    units. *)
Definition sep_if_more (n : nat) (doc : list str) : Z :=
  if (n <? length doc)%nat then separator_len else 0.

(** The condition of the inner [while] loop. *)
Definition keep_popping (_len : Z) (current_doc : list str)
    (total : Z) : bool :=
  (total >? _chunk_overlap ts)
  || ((total + _len + sep_if_more 0 current_doc >? _chunk_size ts)
      && (total >? 0)).

(** The inner [while] loop: drop units from the front.  Indexing an
    empty [current_doc] raises. *)
Fixpoint pop_front (_len : Z) (current_doc : list str) (total : Z)
    {struct current_doc} : result (list str * Z) :=
  if keep_popping _len current_doc total then
    match current_doc with
    | [] => Raise "IndexError"
    | d0 :: rest =>
        pop_front _len rest (total - (len d0 + sep_if_more 1 current_doc))
    end
  else Ok (current_doc, total).

(** One iteration of the [for d in splits] loop on the loop state
    [(docs, current_doc, total)]. *)
Definition merge_step (st : list str * list str * Z) (d : str)
    : result (list str * list str * Z) :=
  let '(docs, current_doc, total) := st in
  let _len := len d in
  '(docs, current_doc, total) ←
    (if total + _len + sep_if_more 0 current_doc >? _chunk_size ts then
       if (0 <? length current_doc)%nat then
         let docs := docs ++ option_list (_join_docs current_doc separator) in
         '(current_doc, total) ← pop_front _len current_doc total;
         Ok (docs, current_doc, total)
       else Ok (docs, current_doc, total)
     else Ok (docs, current_doc, total));
  let current_doc := current_doc ++ [d] in
  Ok (docs, current_doc, total + (_len + sep_if_more 1 current_doc)).

Fixpoint merge_loop (splits : list str)
    (st : list str * list str * Z)
    : result (list str * list str * Z) :=
  match splits with
  | [] => Ok st
  | d :: rest => st' ← merge_step st d; merge_loop rest st'
  end.

(** [_merge_splits(splits, separator)] *)
Definition _merge_splits (splits : list str) : result (list str) :=
  '(docs, current_doc, _) ← merge_loop splits ([], [], 0);
  Ok (docs ++ option_list (_join_docs current_doc separator)).

End Merge.

(** [text_splitter.split_text(text)] *)
Definition split_text (ts : TextSplitter) (text : str)
    : result (list str) :=
  _merge_splits ts (_separator ts) (_split_text text (_separator ts)).


(** *** [ConversationalRetrievalChain] with a [ConversationBufferMemory] *)

Section Chains.
Context `{Externals}.

(** The dictionary returned by a call of the chain: the inputs
    together with the answer.  Its history entry is the memory's own
    list object. *)
Record Response : Type := {
  question : str;
  chat_history : loc;
  answer : str
}.

(** [ConversationBufferMemory(memory_key='chat_history',
    return_messages=True)]: a memory with a message list of its own,
    empty. *)
Definition ConversationBufferMemory : M loc := new_list.

(** [vector_store.as_retriever()] *)
Definition as_retriever (vector_store : VectorStore) : VectorStore :=
  vector_store.

(** [ConversationalRetrievalChain.from_llm(llm, retriever, memory)] *)
Definition from_llm (retriever : VectorStore) (memory : loc) : Chain :=
  {| retriever := retriever; memory := memory |}.

(** [memory.load_memory_variables]: with [return_messages=True] the entry
    under the memory key is the memory's list object itself. *)
Definition load_memory_variables (chain : Chain) : M (loc * list Message) :=
  w ← get_world;
  mret (memory chain, read_list w (memory chain)).

(** [memory.save_context]: both turns are appended to the list in
    place. *)
Definition save_context (chain : Chain) (q a : str) : M unit :=
  w ← get_world;
  modify (set_heap
            <[memory chain :=
                read_list w (memory chain)
                ++ [HumanMessage q; AIMessage a]]>).

(** [chain({'question': q, ...})].  The inputs are prepared first: the
    memory's variables are laid over them, so the history is the memory's
    whatever the caller passed under that key.  Then the inner call runs;
    when it raises, nothing is saved.  When it returns, the context is
    saved and the inputs come back together with the answer. *)
Definition __call__ (chain : Chain) (q : str)
    (passed_history : option value) : M Response :=
  '(history_object, history) ← load_memory_variables chain;
  a ← lift (chain_answer (retriever chain) q history);
  save_context chain q a;;
  mret {| question := q; chat_history := history_object; answer := a |}.

End Chains.
End LangChain.

(** ** The two scripts

    A run of a script is a computation on the session state, the store of
    message lists and the trace of what was read and written to the page.
    Of a [print] only the evaluation of its argument is kept; the page
    set-up is left out. *)

Module App.
Section Script.
Context `{Externals}.

Definition call_PdfReader (f : UploadedFile + str) : M (list Page) :=
  modify (log (EvPdfReader f));; lift (PdfReader f).

Definition call_extract_text (p : Page) : M str :=
  modify (log (EvExtractText p));; lift (extract_text p).

(** The inner loop of [get_pdf_text]: [text += page.extract_text()]. *)
Fixpoint add_pages (pages : list Page) (text : str) : M str :=
  match pages with
  | [] => mret text
  | page :: rest =>
      t ← call_extract_text page;
      add_pages rest (text ++ t)
  end.

(** The outer loop of [get_pdf_text]. *)
Fixpoint add_files (pdf_files : list (UploadedFile + str))
    (text : str) : M str :=
  match pdf_files with
  | [] => mret text
  | pdf_file :: rest =>
      pages ← call_PdfReader pdf_file;
      text ← add_pages pages text;
      add_files rest text
  end.

Definition get_pdf_text (pdf_files : list (UploadedFile + str))
    : M str :=
  add_files pdf_files [].

(** [separator = "\n", chunk_size = 1000, chunk_overlap = 200,
    length_function = len]. *)
Definition get_chunk_text (text : str) : result (list str) :=
  text_splitter ← LangChain.CharacterTextSplitter newline 1000 200;
  LangChain.split_text text_splitter text.

Definition model_name : str :=
  lit ("/Users/arfsyed/Documents/Development/eats/"
       +:+ "eats-recommendation-with-network-1/model_t5").

Definition get_vector_store (data : list Document) : result VectorStore :=
  embeddings ← HuggingFaceInstructEmbeddings model_name;
  FAISS_from_documents data embeddings.

Definition get_conversation_chain (vector_store : VectorStore) : M Chain :=
  memory ← LangChain.ConversationBufferMemory;
  mret (LangChain.from_llm (LangChain.as_retriever vector_store) memory).

(** Calling the value held under [conversation]. *)
Definition call_value (v : value) (q : str) (passed : option value)
    : M LangChain.Response :=
  match v with
  | VChain chain => LangChain.__call__ chain q passed
  | VNone | VList _ => raise "TypeError"
  end.

(** The display loop over [enumerate(st.session_state.chat_history)]. *)
Fixpoint write_messages (i : nat) (messages : list Message) : M unit :=
  match messages with
  | [] => mret tt
  | message :: rest =>
      (if Nat.even i
       then st_write (replace (lit "{{MSG}}") (content message) user_template)
       else st_write (replace (lit "{{MSG}}") (content message) bot_template));;
      write_messages (S i) rest
  end.

Definition show_history : M unit :=
  v ← session_get "chat_history";
  match v with
  | VList l => w ← get_world; write_messages 0 (read_list w l)
  | VNone | VChain _ => raise "TypeError"
  end.

(** [print(e)]: the argument is evaluated; what it prints to the console
    is left out. *)
Definition print {A : Type} (e : M A) : M unit := _ ← e; mret tt.

(** The session's [chat_history] is read, for printing, before it is
    assigned and again after. *)
Definition handle_user_input (q : str) : M unit :=
  conversation ← session_get "conversation";
  response ← call_value conversation q None;
  print (mret response);;
  print (session_get "chat_history");;
  session_set "chat_history" (VList (LangChain.chat_history response));;
  print (session_get "chat_history");;
  show_history.

Definition csv_path : str :=
  lit ("/Users/arfsyed/Documents/Development/Hackathon/input_files/"
       +:+ "lakmeindia-products.csv").

(** The body of [if st.button("OK")] in [main]. *)
Definition process_documents (pdf_files : list (UploadedFile + str))
    : M unit :=
  raw_text ← get_pdf_text pdf_files;
  text_chunks ← lift (get_chunk_text raw_text);
  data ← lift (CSVLoader_load csv_path);
  vector_store ← lift (get_vector_store data);
  st_write (lit "DONE");;
  chain ← get_conversation_chain vector_store;
  session_set "conversation" (VChain chain).

(** One run of the script: [q] is the content of the text input,
    [pdf_files] the uploaded files and [ok] whether the button was
    pressed. *)
Definition main (q : str) (pdf_files : list (UploadedFile + str))
    (ok : bool) : M unit :=
  st_write css;;
  has_conversation ← session_has "conversation";
  (if (has_conversation : bool) then mret tt
   else session_set "conversation" VNone);;
  has_history ← session_has "chat_history";
  (if (has_history : bool) then mret tt
   else session_set "chat_history" VNone);;
  (if decide (q = []) then mret tt else handle_user_input q);;
  (if ok then process_documents pdf_files else mret tt).

End Script.
End App.

Module AudioApp.
Section Script.
Context `{Externals}.

(** [get_pdf_text], [get_chunk_text] and [get_conversation_chain] are
    the same text as in [app.py]. *)
Definition get_pdf_text := App.get_pdf_text.
Definition get_chunk_text := App.get_chunk_text.
Definition get_conversation_chain := App.get_conversation_chain.

Definition get_vector_store (text_chunks : list str)
    : result VectorStore :=
  embeddings ← HuggingFaceInstructEmbeddings App.model_name;
  FAISS_from_texts text_chunks embeddings.

(** Here the caller also passes its own [chat_history] entry. *)
Definition handle_user_input (q : str) : M unit :=
  conversation ← session_get "conversation";
  passed ← session_get "chat_history";
  response ← App.call_value conversation q (Some passed);
  App.print (mret response);;
  session_set "chat_history" (VList (LangChain.chat_history response));;
  App.print (session_get "chat_history");;
  App.show_history.

Definition pdf_path : str :=
  (lit "/Users/arfsyed/Downloads/Syed Arfath Ahmed/Syed Arfath Ahmed.pdf").

Definition get_chain : M unit :=
  has_conversation ← session_has "conversation";
  (if (has_conversation : bool) then mret tt
   else session_set "conversation" VNone);;
  has_history ← session_has "chat_history";
  (if (has_history : bool) then mret tt
   else session_set "chat_history" VNone);;
  raw_text ← get_pdf_text [inr pdf_path];
  text_chunks ← lift (get_chunk_text raw_text);
  vector_store ← lift (get_vector_store text_chunks);
  chain ← get_conversation_chain vector_store;
  session_set "conversation" (VChain chain).

End Script.
End AudioApp.

(** The rest of [audio_app.py]: its [main] and the script itself. *)
Module AudioRun.
Section Script.
Context `{Externals}.

(** A recording, and what [main] does with one: it is exported to
    [audio.wav], reopened, removed, and sent to
    [openai.Audio.transcribe("whisper-1", f, language="en")], whose
    [text] entry is kept. *)
Variable Audio : Type.
Variable transcribe : Audio -> result str.

(** One call of [main]: [audio] is [None] when the recorder gave an empty
    recording, [question] is the content of the text input. *)
Definition main (audio : option Audio) (question : str) : M unit :=
  st_write css;;
  match audio with
  | Some recording =>
      text ← lift (transcribe recording);
      AudioApp.handle_user_input text
  | None =>
      if decide (question = []) then mret tt
      else AudioApp.handle_user_input question
  end.

(** [if __name__ == '__main__': get_chain(); main()] *)
Definition script (audio : option Audio) (question : str) : M unit :=
  AudioApp.get_chain;; main audio question.

End Script.
End AudioRun.

(** ** A concrete environment, to run the scripts on *)

Module Demo.

(** A file is the list of its pages' texts; paths do not resolve; the
    chat model fails on the question ["fail"]. *)
#[export] Instance env : Externals := {|
  UploadedFile := list str;
  Page := str;
  Document := str;
  Embeddings := unit;
  VectorStore := list str;
  PdfReader f := match f with
                 | inl pages => Ok pages
                 | inr _ => Raise "FileNotFoundError"
                 end;
  extract_text p := Ok p;
  CSVLoader_load _ := Ok [lit "row 1"; lit "row 2"];
  HuggingFaceInstructEmbeddings _ := Ok tt;
  FAISS_from_documents data _ := Ok data;
  FAISS_from_texts texts _ := Ok texts;
  chain_answer _ q _ :=
    if decide (q = lit "fail") then Raise "APIConnectionError"
    else Ok (lit "answer to " ++ q);
  css := lit "<style></style>";
  user_template := lit "<div class=user>{{MSG}}</div>";
  bot_template := lit "<div class=bot>{{MSG}}</div>"
|}.

(** A new session. *)
Definition w0 : World := {| session_state := ∅; heap := ∅; trace := [] |}.

(** The world a computation leaves. *)
Definition after {A} (m : M A) (w : World) : World := snd (m w).

(** A first run without a question, a run in which one file is uploaded
    and the button is pressed, and a run with a question after that. *)
Definition w_started : World := after (App.main [] [] false) w0.
Definition w_ready : World :=
  after (App.main [] [inl [lit "page 1"; lit "page 2"]] true) w_started.
Definition w_asked : World :=
  after (App.main (lit "what is this about?") [] false) w_ready.

(** The chain of [w_ready]. *)
Definition chain_ready : Chain :=
  {| retriever := [lit "row 1"; lit "row 2"]; memory := 0%nat |}.

End Demo.

(** ** A second environment

    Here a path opens as a file of one page, the page ["unreadable"] does
    not extract, and the chat model answers every question. *)

Module Desk.

#[export] Instance env : Externals := {|
  UploadedFile := list str;
  Page := str;
  Document := str;
  Embeddings := unit;
  VectorStore := list str;
  PdfReader f := match f with
                 | inl pages => Ok pages
                 | inr path => Ok [lit "text of " ++ path]
                 end;
  extract_text p :=
    if decide (p = lit "unreadable") then Raise "PdfReadError" else Ok p;
  CSVLoader_load _ := Ok [lit "row 1"];
  HuggingFaceInstructEmbeddings _ := Ok tt;
  FAISS_from_documents data _ := Ok data;
  FAISS_from_texts texts _ := Ok texts;
  chain_answer _ q _ := Ok (lit "answer to " ++ q);
  css := lit "<style></style>";
  user_template := lit "<div class=user>{{MSG}}</div>";
  bot_template := lit "<div class=bot>{{MSG}}</div>"
|}.

(** A recording is what was said. *)
Definition transcribe (recording : str) : result str := Ok recording.

(** A new session. *)
Definition w0 : World := {| session_state := ∅; heap := ∅; trace := [] |}.

End Desk.

(** ** The splitter's chunks as windows of units

    The merge loop again, keeping for every emitted chunk the units it is
    made of: the part carried over from the chunk before it, and the part
    that is new.  [current_doc] is the carried part followed by the new
    one. *)

Module Windows.
Import LangChain.

Definition window : Type := list str * list str.

Definition units (w : window) : list str := w.1 ++ w.2.

Section Merge.
Variable ts : TextSplitter.
Variable separator : str.

Definition window_step
    (st : list window * list str * list str * Z) (d : str)
    : result (list window * list str * list str * Z) :=
  let '(wins, carry, fresh, total) := st in
  let _len := len d in
  '(wins, carry, fresh, total) ←
    (if total + _len + sep_if_more separator 0 (carry ++ fresh)
          >? _chunk_size ts then
       if (0 <? length (carry ++ fresh))%nat then
         '(kept, total) ← pop_front ts separator _len (carry ++ fresh) total;
         Ok (wins ++ [(carry, fresh)], kept, [], total)
       else Ok (wins, carry, fresh, total)
     else Ok (wins, carry, fresh, total));
  Ok (wins, carry, fresh ++ [d],
      total + (_len + sep_if_more separator 1 ((carry ++ fresh) ++ [d]))).

Fixpoint window_loop (splits : list str)
    (st : list window * list str * list str * Z)
    : result (list window * list str * list str * Z) :=
  match splits with
  | [] => Ok st
  | d :: rest => st' ← window_step st d; window_loop rest st'
  end.

Definition merge_windows (splits : list str) : result (list window) :=
  '(wins, carry, fresh, _) ← window_loop splits ([], [], [], 0);
  Ok (wins ++ [(carry, fresh)]).

(** The loop state of [_merge_splits] that a window state stands for. *)
Definition erase (st : list window * list str * list str * Z)
    : list str * list str * Z :=
  let '(wins, carry, fresh, total) := st in
  (omap (fun w => _join_docs (units w) separator) wins, carry ++ fresh, total).

(** The units carried into window [i] come from the end of the window
    before it and, joined, are no longer than the overlap; the first
    window carries nothing. *)
Definition carried_ok (wins : list window) : Prop :=
  forall (i : nat) (w : window), wins !! i = Some w ->
    len (join separator w.1) <= _chunk_overlap ts /\
    match i with
    | O => w.1 = []
    | S j => exists p, wins !! j = Some p /\ w.1 `suffix_of` units p
    end.

(** What the window loop maintains after reading the units [seen]:
    the new parts make up [seen], [total] is the joined length of
    [current_doc], and every window carries as described. *)
Definition window_inv (seen : list str)
    (st : list window * list str * list str * Z) : Prop :=
  let '(wins, carry, fresh, total) := st in
  concat (wins.*2) ++ fresh = seen /\
  total = len (join separator (carry ++ fresh)) /\
  carried_ok (wins ++ [(carry, fresh)]).

(** The units [kept] may stay in [current_doc] ahead of the unit [d]:
    joined they are no longer than the overlap, and with [d] added they
    are no longer than the chunk size, unless nothing is kept. *)
Definition may_stay (d : str) (kept : list str) : Prop :=
  len (join separator kept) <= _chunk_overlap ts
  /\ (kept = [] \/ len (join separator (kept ++ [d])) <= _chunk_size ts).

(** Window [w] comes next after window [p]: [p] was closed because the
    first new unit of [w] did not fit into it any more, and [w] carries
    the longest run of units from the end of [p] that may stay. *)
Definition follows (p w : window) : Prop :=
  exists (d : str) (rest : list str),
    w.2 = d :: rest
    /\ _chunk_size ts < len (join separator (units p ++ [d]))
    /\ w.1 `suffix_of` units p
    /\ may_stay d w.1
    /\ forall s : list str,
         s `suffix_of` units p -> (length w.1 < length s)%nat ->
         ~ may_stay d s.

Definition linked (wins : list window) : Prop :=
  forall (j : nat) (p w : window),
    wins !! j = Some p -> wins !! S j = Some w -> follows p w.

(** What the window loop maintains on non-empty units. *)
Definition linking (st : list window * list str * list str * Z) : Prop :=
  let '(wins, carry, fresh, total) := st in
  total = len (join separator (carry ++ fresh))
  /\ Forall (fun u => u <> []) (carry ++ fresh)
  /\ linked (wins ++ [(carry, fresh)]).

End Merge.
End Windows.

(** ** Vocabulary of the statements *)

(** The text of a list of strings, one after the other. *)
Definition text_of (texts : list str) : str := concat texts.

(** [n] copies of a character. *)
Definition rep (n : nat) (c : char) : str := replicate n c.

(** The characters of [s] at the offsets of the half-open interval
    from [lo] to [hi]. *)
Definition slice (lo hi : nat) (s : str) : str :=
  take (hi - lo) (drop lo s).

Definition first_chars (n : nat) (s : str) : str := take n s.

Definition last_chars (n : nat) (s : str) : str := drop (length s - n) s.

(** Consecutive chunks share [n] characters: the end of one is the start
    of the next. *)
Definition chunks_overlap_by (n : nat) (chunks : list str) : Prop :=
  forall (i : nat) (c1 c2 : str),
    chunks !! i = Some c1 -> chunks !! S i = Some c2 ->
    last_chars n c1 = first_chars n c2.

(** The character [c] occurs in [s]. *)
Fixpoint occurs (c : char) (s : str) : bool :=
  match s with
  | [] => false
  | c' :: s' => (c =? c')%N || occurs c s'
  end.

Definition every_char_in_a_chunk (T : str) (chunks : list str) : Prop :=
  forall c : char, occurs c T = true ->
    exists chunk, chunk ∈ chunks /\ occurs c chunk = true.

(** The first chunk followed by every later chunk without its first [n]
    characters. *)
Definition non_overlapping_text (n : nat) (chunks : list str) : str :=
  match chunks with
  | [] => []
  | c :: rest =>
      c ++ text_of (map (drop n) rest)
  end.

(** The first, respectively the last, character of [s] exists and is not
    white space. *)
Definition starts_clean (s : str) : bool :=
  match s with
  | [] => false
  | c :: _ => negb (isspace c)
  end.

Fixpoint ends_clean (s : str) : bool :=
  match s with
  | [] => false
  | [c] => negb (isspace c)
  | _ :: s' => ends_clean s'
  end.

Section Display.
Context `{Externals}.

(** What the display loop writes for the messages from position [i]. *)
Fixpoint rendered (i : nat) (messages : list Message) : list event :=
  match messages with
  | [] => []
  | message :: rest =>
      EvWrite (replace (lit "{{MSG}}") (content message)
                 (if Nat.even i then user_template else bot_template))
      :: rendered (S i) rest
  end.

(** The turns the session shows: the list under [chat_history]. *)
Definition shown_turns (w : World) : list Message :=
  match session_state w !! "chat_history" with
  | Some (VList l) => read_list w l
  | _ => []
  end.

(** The turns a chain has recorded. *)
Definition recorded_turns (w : World) (c : Chain) : list Message :=
  read_list w (memory c).

(** What a call of the script's handler does when a chain is installed. *)
Definition ask_outcome (ask : M unit) (q : str) (c : Chain) (w : World)
    : Prop :=
  match chain_answer (retriever c) q (recorded_turns w c) with
  | Ok a =>
      let turns := recorded_turns w c ++ [HumanMessage q; AIMessage a] in
      ask w = (Ok tt,
               {| session_state :=
                    <["chat_history" := VList (memory c)]> (session_state w);
                  heap := <[memory c := turns]> (heap w);
                  trace := trace w ++ rendered 0 turns |})
  | Raise e => ask w = (Raise e, w)
  end.

(** The events of reading the given files, page by page. *)
Definition reading_events (pdf_files : list (UploadedFile + str))
    (pages : list (list Page)) : list event :=
  concat (zip_with (fun f ps => EvPdfReader f :: map EvExtractText ps)
            pdf_files pages).

End Display.

(** The turns of a list of exchanges, each a question with its answer. *)
Fixpoint exchanges (qa : list (str * str)) : list Message :=
  match qa with
  | [] => []
  | (q, a) :: rest => HumanMessage q :: AIMessage a :: exchanges rest
  end.

(** [sep] occurs somewhere in [s]. *)
Fixpoint has_match (sep s : str) : bool :=
  startswith s sep
  || match s with
     | [] => false
     | _ :: s' => has_match sep s'
     end.

(** [sep] occurs in [pre ++ rest] at an offset inside [pre]. *)
Fixpoint starts_within (sep pre rest : str) : bool :=
  match pre with
  | [] => false
  | _ :: pre' => startswith (pre ++ rest) sep || starts_within sep pre' rest
  end.

Section Sessions.
Context `{Externals}.

(** What the display loop writes for a list of exchanges. *)
Definition page (qa : list (str * str)) : list event :=
  concat (map (fun '(q, a) =>
                 [EvWrite (replace (lit "{{MSG}}") q user_template);
                  EvWrite (replace (lit "{{MSG}}") a bot_template)]) qa).

(** What the display loop writes when the templates are the given text
    around the placeholder. *)
Definition blocks (before_user after_user before_bot after_bot : str)
    (i : nat) (messages : list Message) : list event :=
  imap (fun j message =>
          EvWrite (if Nat.even (i + j)
                   then before_user ++ content message ++ after_user
                   else before_bot ++ content message ++ after_bot))
    messages.

(** The session state with [key] set to [None] unless it is there. *)
Definition ensure (key : string) (m : gmap string value) : gmap string value :=
  match m !! key with
  | Some _ => m
  | None => <[key := VNone]> m
  end.

(** The world once [main] has written the style sheet and made sure of
    its two keys. *)
Definition started (w : World) : World :=
  {| session_state :=
       ensure "chat_history" (ensure "conversation" (session_state w));
     heap := heap w;
     trace := trace w ++ [EvWrite css] |}.

(** A session as the script keeps it: under [conversation] nothing, [None]
    or a chain whose recorded turns are whole exchanges; under
    [chat_history] nothing, [None] or a list of whole exchanges. *)
Definition well_kept (w : World) : Prop :=
  match session_state w !! "conversation" with
  | None | Some VNone => True
  | Some (VChain c) => exists qa, recorded_turns w c = exchanges qa
  | Some (VList _) => False
  end
  /\ match session_state w !! "chat_history" with
     | None | Some VNone => True
     | Some (VList l) => exists qa, read_list w l = exchanges qa
     | Some (VChain _) => False
     end.

(** The world after successive runs of [app.py]; the session outlives a
    run that raised. *)
Fixpoint after_runs
    (inputs : list (str * list (UploadedFile + str) * bool))
    (w : World) : World :=
  match inputs with
  | [] => w
  | (q, pdf_files, ok) :: rest => after_runs rest (App.main q pdf_files ok w).2
  end.

(** The exchanges a series of questions adds to a history: one for every
    non-empty question the chat model answers, each asked on the history
    as it then is. *)
Fixpoint answered (vector_store : VectorStore) (history : list Message)
    (questions : list str) : list (str * str) :=
  match questions with
  | [] => []
  | q :: rest =>
      if decide (q = []) then answered vector_store history rest
      else match chain_answer vector_store q history with
           | Ok a =>
               (q, a)
               :: answered vector_store
                    (history ++ [HumanMessage q; AIMessage a]) rest
           | Raise _ => answered vector_store history rest
           end
  end.

(** The world once [get_chain] has made sure of its two keys. *)
Definition with_keys (w : World) : World :=
  {| session_state :=
       ensure "chat_history" (ensure "conversation" (session_state w));
     heap := heap w;
     trace := trace w |}.

(** Both keys are there. *)
Definition keyed (w : World) : Prop :=
  is_Some (session_state w !! "conversation")
  /\ is_Some (session_state w !! "chat_history").

(** A computation keeps the session as the script keeps it. *)
Definition keeps (m : M unit) : Prop :=
  forall w, well_kept w /\ keyed w -> well_kept (m w).2 /\ keyed (m w).2.

End Sessions.

(** ** Chunks that fit *)

Section Fit.
Import LangChain Windows.
Variable ts : TextSplitter.
Variable sep : str.

(** A document respects the chunk size, or is a single unit. *)
Definition fits (doc : list str) : Prop :=
  len (join sep doc) <= _chunk_size ts \/ (length doc <= 1)%nat.

(** What the window loop keeps on non-empty units. *)
Definition fitting (st : list window * list str * list str * Z)
    : Prop :=
  let '(wins, carry, fresh, total) := st in
  total = len (join sep (carry ++ fresh))
  /\ Forall (fun u => u <> []) (carry ++ fresh)
  /\ fits (carry ++ fresh)
  /\ Forall (fun w => fits (units w)) wins.

End Fit.

(** ** Sample inputs *)

Module Sample.

(** One uploaded file of one page. *)
Definition upload : list (list str + str) := [inl [lit "page 1"]].

(** Two files, of two pages and of one. *)
Definition two_files : list (list str + str) :=
  [inl [lit "page 1"; lit "page 2"]; inl [lit "page 3"]].

(** A press of the button with one upload, a question, and a question that
    fails sent together with a press. *)
Definition three_runs : list (str * list (list str + str) * bool) :=
  [([], upload, true);
   (lit "what is this about?", [], false);
   (lit "fail", [], true)].

(** Questions sent without a press; the second fails, the third is empty. *)
Definition four_questions : list (str * list (list str + str)) :=
  [(lit "first", []); (lit "fail", []); ([], []); (lit "second", upload)].

(** Three files; the second page of the second one does not extract. *)
Definition second_file : list str + str :=
  inl [lit "page 2"; lit "unreadable"; lit "page 4"].

(** Two messages with markup and the placeholder in their text. *)
Definition marked_up : list Message :=
  [HumanMessage (lit "<b>1 < 2?</b>"); AIMessage (lit "{{MSG}} & yes")].

(** The exchange of [Demo.w_asked]. *)
Definition first_exchange : list (str * str) :=
  [(lit "what is this about?", lit "answer to what is this about?")].

(** A session with a chain and without the key [chat_history]; no run of
    a script leaves such a session. *)
Definition no_history_key : World (H := Demo.env) :=
  {| session_state := {[ "conversation" := VChain Demo.chain_ready ]};
     heap := {[ 0%nat := [] ]};
     trace := [] |}.

(** Characters outside ASCII: the bullet U+2022, the em space U+2003 and
    the letter a with a grave accent, U+00E0. *)
Definition bullet : char := 8226%N.
Definition em_space : char := 8195%N.
Definition a_grave : char := 224%N.

(** Two lines of 400 bullets. *)
Definition bullets : str := rep 400 bullet ++ newline ++ rep 400 bullet.

(** Ten lines of 150 characters, of the letters a to j. *)
Definition ten_lines : list str :=
  map (rep 150)
    [ch "a"; ch "b"; ch "c"; ch "d"; ch "e"; ch "f"; ch "g"; ch "h"; ch "i";
     ch "j"].

End Sample.

(** * Properties *)

(** ** Lengths of joined strings *)

Lemma len_app (a b : str) : len (a ++ b) = len a + len b.
Proof. unfold len. rewrite length_app. lia. Qed.

Lemma len_nonneg (s : str) : 0 <= len s.
Proof. unfold len. lia. Qed.

Lemma len_join_cons (sep d : str) (ds : list str) :
  len (join sep (d :: ds)) =
  len d + (if (0 <? length ds)%nat then len sep + len (join sep ds) else 0).
Proof.
  destruct ds as [|d' ds]; [cbn; lia|].
  change (join sep (d :: d' :: ds)) with (d ++ sep ++ join sep (d' :: ds)).
  rewrite !len_app. cbn [length Nat.ltb Nat.leb]. lia.
Qed.

Lemma len_join_snoc (sep d : str) (ds : list str) :
  len (join sep (ds ++ [d])) =
  len (join sep ds) + len d + (if (0 <? length ds)%nat then len sep else 0).
Proof.
  induction ds as [|d0 ds IH]; [unfold len; cbn; lia|].
  change ((d0 :: ds) ++ [d]) with (d0 :: (ds ++ [d])).
  rewrite !len_join_cons, IH, length_app.
  destruct ds; cbn [length Nat.ltb Nat.leb Nat.add join];
    try change (len []) with 0; lia.
Qed.

Lemma len_join_nonneg (sep : str) (ds : list str) :
  0 <= len (join sep ds).
Proof. apply len_nonneg. Qed.

(** ** The merge loop of the splitter *)

Section MergeProps.
Import LangChain Windows.
Variable ts : TextSplitter.
Variable sep : str.
Hypothesis overlap_nonneg : 0 <= _chunk_overlap ts.

Lemma pop_front_eq (_len : Z) (cur : list str) (total : Z) :
  pop_front ts sep _len cur total =
  if keep_popping ts sep _len cur total then
    match cur with
    | [] => Raise "IndexError"
    | d0 :: rest =>
        pop_front ts sep _len rest (total - (len d0 + sep_if_more sep 1 cur))
    end
  else Ok (cur, total).
Proof. by destruct cur. Qed.

(** Started on the joined length of [cur], the inner loop returns a
    suffix of [cur] with its joined length, which fits the overlap. *)
Lemma pop_front_spec (_len : Z) (cur : list str) :
  exists kept,
    pop_front ts sep _len cur (len (join sep cur))
      = Ok (kept, len (join sep kept))
    /\ kept `suffix_of` cur
    /\ len (join sep kept) <= _chunk_overlap ts.
Proof using overlap_nonneg.
  induction cur as [|d0 rest IH]; rewrite pop_front_eq.
  - exists []. unfold keep_popping. change (len (join sep [])) with 0.
    replace (0 >? _chunk_overlap ts) with false by lia.
    rewrite andb_false_r. simpl. split_and!; [done|done|lia].
  - destruct (keep_popping _ _ _ _ _) eqn:K.
    + destruct IH as (kept & E & Hsuf & L). exists kept.
      replace (len (join sep (d0 :: rest))
               - (len d0 + sep_if_more sep 1 (d0 :: rest)))
        with (len (join sep rest)).
      * split_and!; [done|by apply suffix_cons_r|done].
      * rewrite len_join_cons. unfold sep_if_more, separator_len.
        cbn [length]. change (1 <? S (length rest))%nat
          with (0 <? length rest)%nat.
        destruct (0 <? length rest)%nat eqn:R; [lia|].
        destruct rest; [change (len (join sep [])) with 0; lia|done].
    + exists (d0 :: rest). split_and!; [done|done|].
      unfold keep_popping in K. apply orb_false_elim in K as [K _]. lia.
Qed.

Lemma sep_if_more_snoc (cur : list str) (d : str) :
  sep_if_more sep 1 (cur ++ [d]) = sep_if_more sep 0 cur.
Proof.
  unfold sep_if_more. rewrite length_app. cbn [length].
  by replace (length cur + 1)%nat with (S (length cur)) by lia.
Qed.

Lemma total_snoc (cur : list str) (d : str) :
  len (join sep cur) + (len d + sep_if_more sep 1 (cur ++ [d]))
  = len (join sep (cur ++ [d])).
Proof.
  rewrite sep_if_more_snoc, len_join_snoc.
  unfold sep_if_more, separator_len. lia.
Qed.

(** *** Carried units *)

Lemma carried_ok_grow (wins : list window) (carry fresh : list str)
    (d : str) :
  carried_ok ts sep (wins ++ [(carry, fresh)]) ->
  carried_ok ts sep (wins ++ [(carry, fresh ++ [d])]).
Proof.
  intros Hok i w Hi.
  assert (Hprev : forall j, (j < length wins)%nat ->
            (wins ++ [(carry, fresh ++ [d])]) !! j
            = (wins ++ [(carry, fresh)]) !! j).
  { intros j Hj. by rewrite !lookup_app_l. }
  destruct (decide (i < length wins)%nat) as [Hlt|Hge].
  - rewrite Hprev in Hi by done. destruct (Hok i w Hi) as [Hl Hs].
    split; [done|]. destruct i as [|j]; [done|].
    destruct Hs as (p & Hp & Hsuf). exists p. split; [|done].
    rewrite Hprev; [done|lia].
  - apply Nat.nlt_ge in Hge. rewrite lookup_app_r in Hi by done.
    assert (i = length wins) as ->.
    { apply lookup_lt_Some in Hi. simpl in Hi. lia. }
    rewrite Nat.sub_diag in Hi. injection Hi as <-.
    destruct (Hok (length wins) (carry, fresh)) as [Hl Hs].
    { rewrite lookup_app_r, Nat.sub_diag; done. }
    split; [done|]. destruct (length wins) as [|j] eqn:E; [done|].
    destruct Hs as (p & Hp & Hsuf). exists p. split; [|done].
    rewrite lookup_app_l in Hp |- *; [done|lia|lia].
Qed.

Lemma carried_ok_emit (wins : list window) (kept : list str) (w : window) :
  carried_ok ts sep (wins ++ [w]) ->
  kept `suffix_of` units w ->
  len (join sep kept) <= _chunk_overlap ts ->
  carried_ok ts sep ((wins ++ [w]) ++ [(kept, [])]).
Proof.
  intros Hok Hsuf Hlen i x Hi.
  destruct (decide (i < length (wins ++ [w]))%nat) as [Hlt|Hge].
  - rewrite lookup_app_l in Hi by done. destruct (Hok i x Hi) as [Hl Hs].
    split; [done|]. destruct i as [|j]; [done|].
    destruct Hs as (p & Hp & Hs). exists p. split; [|done].
    rewrite lookup_app_l; [done|lia].
  - apply Nat.nlt_ge in Hge. rewrite lookup_app_r in Hi by done.
    assert (i = length (wins ++ [w])) as ->.
    { apply lookup_lt_Some in Hi. simpl in Hi. lia. }
    rewrite Nat.sub_diag in Hi. injection Hi as <-.
    split; [done|]. rewrite length_app. cbn [length].
    replace (length wins + 1)%nat with (S (length wins)) by lia.
    exists w. split; [|done].
    rewrite lookup_app_l by (rewrite length_app; simpl; lia).
    by rewrite lookup_app_r, Nat.sub_diag.
Qed.

End MergeProps.

Section WindowProps.
Import LangChain Windows.
Variable ts : TextSplitter.
Variable sep : str.
Hypothesis overlap_nonneg : 0 <= _chunk_overlap ts.

Lemma window_step_inv (seen : list str)
    (st : list window * list str * list str * Z) (d : str) :
  window_inv ts sep seen st ->
  exists st', window_step ts sep st d = Ok st'
              /\ window_inv ts sep (seen ++ [d]) st'.
Proof using overlap_nonneg.
  destruct st as [[[wins carry] fresh] total]. intros (Hseen & -> & Hok).
  assert (Hstay : window_inv ts sep (seen ++ [d])
            (wins, carry, fresh ++ [d],
             len (join sep (carry ++ fresh))
             + (len d + sep_if_more sep 1 ((carry ++ fresh) ++ [d])))).
  { split_and!.
    - by rewrite app_assoc, Hseen.
    - by rewrite total_snoc, app_assoc.
    - by apply carried_ok_grow. }
  unfold window_step.
  destruct (_ >? _chunk_size ts); [|eexists; split; [reflexivity|done]].
  destruct (0 <? length (carry ++ fresh))%nat;
    [|eexists; split; [reflexivity|done]].
  destruct (pop_front_spec ts sep overlap_nonneg (len d) (carry ++ fresh))
    as (kept & -> & Hsuf & Hlen).
  eexists; split; [reflexivity|]. split_and!.
  - rewrite fmap_app, concat_app. simpl. rewrite !app_nil_r.
    by rewrite <- Hseen.
  - rewrite app_nil_r. simpl. by rewrite total_snoc.
  - apply (carried_ok_grow ts sep _ kept [] d).
    by apply carried_ok_emit.
Qed.

Lemma window_loop_inv (splits seen : list str)
    (st : list window * list str * list str * Z) :
  window_inv ts sep seen st ->
  exists st', window_loop ts sep splits st = Ok st'
              /\ window_inv ts sep (seen ++ splits) st'.
Proof using overlap_nonneg.
  revert seen st. induction splits as [|d rest IH]; intros seen st Hinv.
  - exists st. by rewrite app_nil_r.
  - destruct (window_step_inv seen st d Hinv) as (st1 & E1 & Hinv1).
    destruct (IH _ _ Hinv1) as (st2 & E2 & Hinv2).
    exists st2. simpl. rewrite E1. simpl. rewrite E2.
    by rewrite <- app_assoc in Hinv2.
Qed.

Lemma window_inv_start : window_inv ts sep [] ([], [], [], 0).
Proof using overlap_nonneg.
  split_and!; [done|done|]. intros [|i] w Hi; [|done].
  injection Hi as <-. done.
Qed.

(** The merge loop is the window loop with the windows joined. *)
Lemma merge_step_erase
    (st : list window * list str * list str * Z) (d : str) :
  merge_step ts sep (erase sep st) d
  = st' ← window_step ts sep st d; Ok (erase sep st').
Proof.
  destruct st as [[[wins carry] fresh] total].
  unfold merge_step, window_step, erase.
  destruct (_ >? _chunk_size ts); [|simpl; by rewrite app_assoc].
  destruct (0 <? length (carry ++ fresh))%nat;
    [|simpl; by rewrite app_assoc].
  destruct (pop_front ts sep (len d) (carry ++ fresh) total)
    as [[kept total']|e]; [|done].
  simpl. rewrite omap_app, app_nil_r. simpl.
  unfold units. simpl. by destruct (_join_docs (carry ++ fresh) sep).
Qed.

Lemma merge_loop_erase (splits : list str)
    (st : list window * list str * list str * Z) :
  merge_loop ts sep splits (erase sep st)
  = st' ← window_loop ts sep splits st; Ok (erase sep st').
Proof.
  revert st. induction splits as [|d rest IH]; intros st; [done|].
  simpl. rewrite merge_step_erase.
  destruct (window_step ts sep st d) as [st1|e]; [|done].
  simpl. apply IH.
Qed.

Lemma merge_splits_windows (splits : list str) :
  _merge_splits ts sep splits
  = wins ← merge_windows ts sep splits;
    Ok (omap (fun w => _join_docs (units w) sep) (wins : list window)).
Proof.
  unfold _merge_splits, merge_windows.
  change ([], [], 0) with (erase sep ([], [], [], 0)).
  rewrite merge_loop_erase.
  destruct (window_loop ts sep splits ([], [], [], 0))
    as [[[[wins carry] fresh] total]|e]; [|done].
  simpl. rewrite omap_app. simpl.
  unfold units. simpl. by destruct (_join_docs (carry ++ fresh) sep).
Qed.

(** The windows of any list of units: they exist, their new parts make
    up the list, and they carry as described. *)
Lemma merge_windows_spec (splits : list str) :
  exists wins, merge_windows ts sep splits = Ok wins
    /\ concat (wins.*2) = splits
    /\ carried_ok ts sep wins.
Proof using overlap_nonneg.
  destruct (window_loop_inv splits [] _ window_inv_start)
    as ([[[wins carry] fresh] total] & E & Hseen & _ & Hok).
  exists (wins ++ [(carry, fresh)]). unfold merge_windows. rewrite E.
  split_and!; [done| |done].
  rewrite fmap_app, concat_app. simpl. by rewrite app_nil_r.
Qed.

End WindowProps.

(** ** Strings *)

Lemma append_assoc (a b c : str) : (a ++ b) ++ c = a ++ (b ++ c).
Proof. by rewrite <- app_assoc. Qed.

Lemma text_of_app (xs ys : list str) :
  text_of (xs ++ ys) = text_of xs ++ text_of ys.
Proof. apply concat_app. Qed.

(** ** The scripts *)

Section ScriptProps.
Context `{Externals}.

Ltac run :=
  unfold mbind, M_bind, mret, M_ret, lift, modify, raise, get_world,
    st_write, App.print, session_get, session_set, session_has, new_list;
  simpl.

Lemma world_eta (w : World) :
  {| session_state := session_state w; heap := heap w; trace := trace w |} = w.
Proof. by destruct w. Qed.

(** *** Reading the files *)

Lemma add_pages_ok (pages : list Page) (texts : list str) (text : str)
    (w : World) :
  Forall2 (fun p t => extract_text p = Ok t) pages texts ->
  App.add_pages pages text w
  = (Ok (text ++ text_of texts),
     {| session_state := session_state w; heap := heap w;
        trace := trace w ++ map EvExtractText pages |}).
Proof.
  intros Hall. revert text w.
  induction Hall as [|p t pages texts Hp _ IH]; intros text w.
  - simpl. run. by rewrite app_nil_r, app_nil_r, world_eta.
  - simpl. unfold App.call_extract_text. run. rewrite Hp. simpl.
    rewrite IH. simpl. by rewrite append_assoc, <- app_assoc.
Qed.

Lemma add_files_ok (pdf_files : list (UploadedFile + str))
    (pages : list (list Page)) (texts : list (list str)) (text : str)
    (w : World) :
  Forall2 (fun f ps => PdfReader f = Ok ps) pdf_files pages ->
  Forall2 (Forall2 (fun p t => extract_text p = Ok t)) pages texts ->
  App.add_files pdf_files text w
  = (Ok (text ++ text_of (concat texts)),
     {| session_state := session_state w; heap := heap w;
        trace := trace w ++ reading_events pdf_files pages |}).
Proof.
  intros Hfiles. revert texts text w.
  induction Hfiles as [|f ps pdf_files pages Hf _ IH];
    intros texts text w Hpages.
  - inversion Hpages; subst. simpl. run.
    by rewrite app_nil_r, app_nil_r, world_eta.
  - inversion Hpages as [|? ts ? texts' Hps Hrest]; subst.
    simpl. unfold App.call_PdfReader. run. rewrite Hf. simpl.
    rewrite (add_pages_ok ps ts) by done. simpl.
    rewrite (IH texts') by done. simpl.
    rewrite text_of_app, append_assoc. unfold reading_events. simpl.
    by rewrite <- !app_assoc.
Qed.

(** Reading files changes nothing but the trace, whatever the outcome. *)
Lemma add_pages_frame (pages : list Page) (text : str) (w : World) :
  session_state (App.add_pages pages text w).2 = session_state w
  /\ heap (App.add_pages pages text w).2 = heap w.
Proof.
  revert text w. induction pages as [|p pages IH]; intros text w; [done|].
  simpl. unfold App.call_extract_text. run.
  destruct (extract_text p); [|done]. simpl.
  destruct (IH (text ++ a) (log (EvExtractText p) w)) as [-> ->]. done.
Qed.

Lemma add_files_frame (pdf_files : list (UploadedFile + str))
    (text : str) (w : World) :
  session_state (App.add_files pdf_files text w).2 = session_state w
  /\ heap (App.add_files pdf_files text w).2 = heap w.
Proof.
  revert text w. induction pdf_files as [|f rest IH]; intros text w; [done|].
  simpl. unfold App.call_PdfReader. run.
  destruct (PdfReader f) as [ps|e]; [|done]. simpl.
  pose proof (add_pages_frame ps text (log (EvPdfReader f) w)) as [Hs Hh].
  destruct (App.add_pages ps text (log (EvPdfReader f) w)) as [[t|e] w1];
    simpl in *; [|done].
  destruct (IH t w1) as [-> ->]. done.
Qed.

(** C10: [get_pdf_text] returns the texts of all pages of all files, one
    after the other in file order and then page order, whenever every file
    opens and every page extracts, reading the files and pages in that
    order; on an empty list it returns the empty str and reads nothing.
    This is the function of both scripts. *)
Theorem get_pdf_text_concatenates_pages :
  (forall (pdf_files : list (UploadedFile + str))
          (pages : list (list Page)) (texts : list (list str)) (w : World),
     Forall2 (fun f ps => PdfReader f = Ok ps) pdf_files pages ->
     Forall2 (Forall2 (fun p t => extract_text p = Ok t)) pages texts ->
     App.get_pdf_text pdf_files w
     = (Ok (text_of (concat texts)),
        {| session_state := session_state w; heap := heap w;
           trace := trace w ++ reading_events pdf_files pages |}))
  /\ (forall w : World, App.get_pdf_text [] w = (Ok [], w))
  /\ AudioApp.get_pdf_text = App.get_pdf_text.
Proof.
  split_and!; [|done|done].
  intros pdf_files pages texts w Hfiles Hpages.
  unfold App.get_pdf_text. by rewrite (add_files_ok _ pages texts).
Qed.

(** *** Asking *)

Lemma write_messages_ok (i : nat) (messages : list Message) (w : World) :
  App.write_messages i messages w
  = (Ok tt, {| session_state := session_state w; heap := heap w;
               trace := trace w ++ rendered i messages |}).
Proof.
  revert i w. induction messages as [|m rest IH]; intros i w.
  - simpl. run. by rewrite app_nil_r, world_eta.
  - simpl. run. destruct (Nat.even i); run; rewrite IH; simpl;
      by rewrite <- app_assoc.
Qed.

Lemma handle_user_input_outcome (q : str) (c : Chain) (w : World) :
  session_state w !! "conversation" = Some (VChain c) ->
  is_Some (session_state w !! "chat_history") ->
  ask_outcome (App.handle_user_input q) q c w.
Proof.
  intros Hc [v Hv]. unfold ask_outcome, recorded_turns, App.handle_user_input.
  run. rewrite Hc. simpl.
  unfold LangChain.__call__, LangChain.load_memory_variables,
    LangChain.save_context. run.
  destruct (chain_answer _ _ _) as [a|e]; [|done]. simpl.
  rewrite Hv. simpl. rewrite lookup_insert_eq. simpl.
  unfold App.show_history. run. rewrite lookup_insert_eq. simpl.
  rewrite write_messages_ok. simpl.
  unfold read_list. simpl. by rewrite lookup_insert_eq.
Qed.

Lemma audio_handle_user_input_outcome (q : str) (c : Chain) (w : World) :
  session_state w !! "conversation" = Some (VChain c) ->
  is_Some (session_state w !! "chat_history") ->
  ask_outcome (AudioApp.handle_user_input q) q c w.
Proof.
  intros Hc [v Hv].
  unfold ask_outcome, recorded_turns, AudioApp.handle_user_input.
  run. rewrite Hc, Hv. simpl.
  unfold LangChain.__call__, LangChain.load_memory_variables,
    LangChain.save_context. run.
  destruct (chain_answer _ _ _) as [a|e]; [|done]. simpl.
  rewrite lookup_insert_eq. simpl.
  unfold App.show_history. run. rewrite lookup_insert_eq. simpl.
  rewrite write_messages_ok. simpl.
  unfold read_list. simpl. by rewrite lookup_insert_eq.
Qed.

(** C2, as the scripts have it: with a chain installed, in a session that
    has its [chat_history] key as [main] and [get_chain] see to, an ask
    whose chat-model call returns appends the user turn and then the
    assistant turn to the chain's recorded turns, which are also the turns
    shown; an ask whose chat-model call raises fails with that same
    exception and leaves the whole state as it was.  No exception is
    renamed.  This holds for the handler of either script. *)
Theorem ask_appends_two_turns_or_raises (q : str) (c : Chain) (w : World)
    (ask : M unit) :
  session_state w !! "conversation" = Some (VChain c) ->
  is_Some (session_state w !! "chat_history") ->
  ask = App.handle_user_input q \/ ask = AudioApp.handle_user_input q ->
  match chain_answer (retriever c) q (recorded_turns w c) with
  | Ok a =>
      exists w', ask w = (Ok tt, w')
        /\ recorded_turns w' c
           = recorded_turns w c ++ [HumanMessage q; AIMessage a]
        /\ shown_turns w' = recorded_turns w' c
        /\ session_state w' !! "conversation" = Some (VChain c)
  | Raise e => ask w = (Raise e, w)
  end.
Proof.
  intros Hc Hh Hask.
  assert (Hout : ask_outcome ask q c w).
  { destruct Hask as [->| ->].
    - by apply handle_user_input_outcome.
    - by apply audio_handle_user_input_outcome. }
  unfold ask_outcome in Hout.
  destruct (chain_answer _ _ _) as [a|e]; [|done].
  eexists. split; [exact Hout|].
  unfold shown_turns, recorded_turns, read_list. simpl.
  rewrite !lookup_insert_eq. simpl. rewrite ?lookup_insert_eq.
  split_and!; [done|done|]. by rewrite lookup_insert_ne.
Qed.

(** C1, as the script has it: while the session holds no chain, the
    handler fails with [TypeError] (the call of [None]) and changes
    nothing; a run of [main] with a question on such a session fails the
    same way, before the documents are looked at, and still holds no
    chain. *)
Theorem ask_without_chain_raises_TypeError :
  (forall (q : str) (w : World),
     session_state w !! "conversation" = Some VNone ->
     App.handle_user_input q w = (Raise "TypeError", w))
  /\ (forall (q : str) (pdf_files : list (UploadedFile + str))
             (ok : bool) (w : World),
        q <> [] ->
        session_state w !! "conversation" = None
        \/ session_state w !! "conversation" = Some VNone ->
        (App.main q pdf_files ok w).1 = Raise "TypeError"
        /\ session_state (App.main q pdf_files ok w).2 !! "conversation"
           = Some VNone
        /\ heap (App.main q pdf_files ok w).2 = heap w).
Proof.
  split.
  - intros q w Hc. unfold App.handle_user_input. run. by rewrite Hc.
  - intros q pdf_files ok w Hq Hc. unfold App.main. run.
    destruct (decide (q = [])) as [?|_]; [done|].
    unfold App.handle_user_input. run.
    destruct Hc as [Hc|Hc]; rewrite Hc; simpl;
      rewrite ?lookup_insert_ne by done;
      destruct (session_state w !! "chat_history") eqn:Hh; simpl;
      repeat (first [ rewrite lookup_insert_eq
                    | rewrite lookup_insert_ne by done
                    | rewrite Hc ]; simpl);
      done.
Qed.

(** *** Processing the documents *)

(** A successful press of the button: the files were read and their text
    was chunked, and the new state is the old one with a chain over the
    store built from the CSV rows, with an empty message list of its own,
    under [conversation]. *)
Lemma process_documents_ok (pdf_files : list (UploadedFile + str))
    (w w' : World) :
  App.process_documents pdf_files w = (Ok tt, w') ->
  exists raw_text w1 text_chunks data vector_store,
    App.get_pdf_text pdf_files w = (Ok raw_text, w1)
    /\ App.get_chunk_text raw_text = Ok text_chunks
    /\ CSVLoader_load App.csv_path = Ok data
    /\ App.get_vector_store data = Ok vector_store
    /\ w' = {| session_state :=
                 <["conversation" :=
                     VChain {| retriever := vector_store;
                               memory := fresh (dom (heap w)) |}]>
                   (session_state w);
               heap := <[fresh (dom (heap w)) := []]> (heap w);
               trace := trace w1 ++ [EvWrite (lit "DONE")] |}.
Proof.
  unfold App.process_documents. run.
  pose proof (add_files_frame pdf_files [] w) as [Hs Hh].
  unfold App.get_pdf_text.
  destruct (App.add_files pdf_files [] w) as [[raw_text|e] w1];
    simpl in *; [|done].
  destruct (App.get_chunk_text raw_text) as [text_chunks|e] eqn:Hc; [|done].
  destruct (CSVLoader_load App.csv_path) as [data|e] eqn:Hd; [|done].
  destruct (App.get_vector_store data) as [vector_store|e] eqn:Hv; [|done].
  simpl. unfold App.get_conversation_chain, LangChain.ConversationBufferMemory,
    LangChain.from_llm, LangChain.as_retriever. run.
  intros [= <-]. exists raw_text, w1, text_chunks, data, vector_store.
  split_and!; try done. unfold set_session, set_heap, log. simpl.
  by rewrite Hs, Hh.
Qed.

(** C3, as the script has it: a successful press of the button installs
    a new chain over a freshly built store; the chain's recorded turns are
    empty, in a message list that did not exist before; the entry
    [chat_history] of the session, and with it the turns shown, is left as
    it was. *)
Theorem process_documents_installs_fresh_chain
    (pdf_files : list (UploadedFile + str)) (w w' : World) :
  App.process_documents pdf_files w = (Ok tt, w') ->
  exists data vector_store chain,
    CSVLoader_load App.csv_path = Ok data
    /\ App.get_vector_store data = Ok vector_store
    /\ session_state w' !! "conversation" = Some (VChain chain)
    /\ retriever chain = vector_store
    /\ heap w !! memory chain = None
    /\ recorded_turns w' chain = []
    /\ session_state w' !! "chat_history" = session_state w !! "chat_history"
    /\ shown_turns w' = shown_turns w.
Proof.
  intros Hrun.
  destruct (process_documents_ok _ _ _ Hrun)
    as (raw_text & w1 & text_chunks & data & vs & _ & _ & Hd & Hv & ->).
  set (l := fresh (dom (heap w))).
  assert (Hfresh : heap w !! l = None).
  { apply not_elem_of_dom. apply is_fresh. }
  exists data, vs, {| retriever := vs; memory := l |}.
  unfold recorded_turns, shown_turns, read_list. simpl.
  rewrite !lookup_insert_eq. rewrite lookup_insert_ne by done.
  split_and!; try done.
  destruct (session_state w !! "chat_history") as [[|?|l']|]; try done.
  destruct (decide (l = l')) as [<-|Hne].
  - by rewrite lookup_insert_eq, Hfresh.
  - by rewrite lookup_insert_ne.
Qed.

(** C4: whatever files are uploaded, a successful press of the button
    builds the store from the rows of the CSV file at the fixed path and
    from nothing else: the text of the files is read and chunked, and two
    presses from the same state with different uploads leave the same
    session state and the same message lists. *)
Theorem index_is_built_from_the_csv_only
    (pdf_files1 pdf_files2 : list (UploadedFile + str)) (w w1 w2 : World) :
  App.process_documents pdf_files1 w = (Ok tt, w1) ->
  App.process_documents pdf_files2 w = (Ok tt, w2) ->
  (exists data embeddings vector_store chain raw_text text_chunks,
     CSVLoader_load App.csv_path = Ok data
     /\ HuggingFaceInstructEmbeddings App.model_name = Ok embeddings
     /\ FAISS_from_documents data embeddings = Ok vector_store
     /\ session_state w1 !! "conversation" = Some (VChain chain)
     /\ retriever chain = vector_store
     /\ (App.get_pdf_text pdf_files1 w).1 = Ok raw_text
     /\ App.get_chunk_text raw_text = Ok text_chunks)
  /\ session_state w1 = session_state w2
  /\ heap w1 = heap w2.
Proof.
  intros Hrun1 Hrun2.
  destruct (process_documents_ok _ _ _ Hrun1)
    as (raw1 & w1' & chunks1 & data1 & vs1 & Hp1 & Hc1 & Hd1 & Hv1 & ->).
  destruct (process_documents_ok _ _ _ Hrun2)
    as (raw2 & w2' & chunks2 & data2 & vs2 & _ & _ & Hd2 & Hv2 & ->).
  rewrite Hd1 in Hd2. injection Hd2 as <-.
  rewrite Hv1 in Hv2. injection Hv2 as <-.
  split_and!; [|done|done].
  unfold App.get_vector_store in Hv1. simpl in Hv1.
  destruct (HuggingFaceInstructEmbeddings App.model_name) as [emb|e] eqn:He;
    [|done].
  exists data1, emb, vs1,
    {| retriever := vs1; memory := fresh (dom (heap w)) |}, raw1, chunks1.
  simpl. rewrite lookup_insert_eq, Hp1. done.
Qed.

End ScriptProps.

(** ** The chunker *)

Lemma elem_of_concat_1 {A : Type} (x : A) (ls : list (list A)) :
  x ∈ concat ls -> exists l, l ∈ ls /\ x ∈ l.
Proof.
  induction ls as [|l ls IH]; simpl; [by intros ?%elem_of_nil|].
  intros [Hx|Hx]%elem_of_app.
  - exists l. split; [apply list_elem_of_here|done].
  - destruct (IH Hx) as (l' & Hl' & Hx'). exists l'.
    split; [by apply list_elem_of_further|done].
Qed.

(** With a non-negative overlap the splitter returns: its chunks are the
    joined windows of the units of the text. *)
Lemma split_text_windows (ts : LangChain.TextSplitter) (T : str) :
  0 <= LangChain._chunk_overlap ts ->
  exists wins,
    LangChain.split_text ts T
    = Ok (omap (fun w => LangChain._join_docs (Windows.units w)
                           (LangChain._separator ts)) wins)
    /\ concat (wins.*2) = LangChain._split_text T (LangChain._separator ts)
    /\ Windows.carried_ok ts (LangChain._separator ts) wins.
Proof.
  intros Hov. unfold LangChain.split_text.
  destruct (merge_windows_spec ts (LangChain._separator ts) Hov
              (LangChain._split_text T (LangChain._separator ts)))
    as (wins & E & Hcat & Hok).
  exists wins. rewrite merge_splits_windows, E. done.
Qed.

(** *** Lines, stripping and slices *)

Lemma lstrip_clean (s : str) : starts_clean s = true -> lstrip s = s.
Proof.
  destruct s as [|c s]; [done|]. simpl. by intros ->%negb_true_iff.
Qed.

Lemma rstrip_cons (c c' : char) (s : str) :
  rstrip (c :: c' :: s)
  = match rstrip (c' :: s) with
    | [] => if isspace c then [] else [c]
    | r => c :: r
    end.
Proof. done. Qed.

Lemma rstrip_clean (s : str) : ends_clean s = true -> rstrip s = s.
Proof.
  induction s as [|c s IH]; [done|].
  destruct s as [|c' s].
  - simpl. by intros ->%negb_true_iff.
  - intros Hs.
    change (ends_clean (c :: c' :: s)) with (ends_clean (c' :: s)) in Hs.
    by rewrite rstrip_cons, (IH Hs).
Qed.

Lemma strip_clean (s : str) :
  starts_clean s = true -> ends_clean s = true -> strip s = s.
Proof.
  intros Hs He. unfold strip. rewrite lstrip_clean by done.
  by apply rstrip_clean.
Qed.

Lemma starts_clean_app (a b : str) :
  starts_clean a = true -> starts_clean (a ++ b) = true.
Proof. by destruct a. Qed.

Lemma ends_clean_app (a b : str) :
  ends_clean b = true -> ends_clean (a ++ b) = true.
Proof.
  intros Hb. induction a as [|c a IH]; [done|].
  change ((c :: a) ++ b) with (c :: (a ++ b)).
  destruct (a ++ b) eqn:E; [done|]. exact IH.
Qed.

Lemma join_docs_clean (docs : list str) (sep : str) :
  starts_clean (join sep docs) = true ->
  ends_clean (join sep docs) = true ->
  LangChain._join_docs docs sep = Some (join sep docs).
Proof.
  intros Hs He. unfold LangChain._join_docs. rewrite strip_clean by done.
  destruct (decide (join sep docs = [])) as [E|_]; [|done].
  by rewrite E in Hs.
Qed.

(** Splitting at line breaks. *)
Lemma startswith_newline (c : char) (s : str) :
  startswith (c :: s) newline = (10 =? c)%N.
Proof. simpl. apply andb_true_r. Qed.

Lemma split_go_cons (sep : str) (c : char) (s : str) :
  split_go sep 0 (c :: s)
  = if startswith (c :: s) sep
    then [] :: split_go sep (length sep - 1) s
    else match split_go sep 0 s with
         | [] => [[c]]
         | p :: ps => (c :: p) :: ps
         end.
Proof. done. Qed.

Lemma occurs_cons (c c' : char) (s : str) :
  occurs c (c' :: s) = (c =? c')%N || occurs c s.
Proof. done. Qed.

Lemma split_last_line (l : str) :
  occurs 10%N l = false -> split newline l = [l].
Proof.
  unfold split. induction l as [|c l IH]; [done|].
  rewrite occurs_cons. intros [Hc Hl]%orb_false_elim.
  by rewrite split_go_cons, startswith_newline, Hc, (IH Hl).
Qed.

Lemma split_line (l rest : str) :
  occurs 10%N l = false ->
  split newline (l ++ newline ++ rest) = l :: split newline rest.
Proof.
  unfold split. induction l as [|c l IH].
  - intros _. change ([] ++ newline ++ rest) with (10%N :: rest).
    by rewrite split_go_cons, startswith_newline.
  - rewrite occurs_cons. intros [Hc Hl]%orb_false_elim.
    change ((c :: l) ++ newline ++ rest) with (c :: (l ++ newline ++ rest)).
    by rewrite split_go_cons, startswith_newline, Hc, (IH Hl).
Qed.

(** The characters after [pre] and before [post]. *)
Lemma slice_middle (lo hi : nat) (pre mid post : str) :
  length pre = lo -> (lo + length mid)%nat = hi ->
  slice lo hi (pre ++ mid ++ post) = mid.
Proof.
  intros <- <-. unfold slice. rewrite drop_app_length.
  replace (length pre + length mid - length pre)%nat with (length mid) by lia.
  apply take_app_length.
Qed.

Lemma split_text_newline (T : str) :
  LangChain._split_text T newline
  = filter (fun s => s <> []) (split newline T).
Proof. done. Qed.

(** *** Single steps of the merge loop *)

Section MergeSteps.
Import LangChain.
Variable ts : TextSplitter.
Variable sep : str.

Lemma merge_step_fits (docs cur : list str) (total : Z) (d : str) :
  (total + len d + sep_if_more sep 0 cur >? _chunk_size ts) = false ->
  merge_step ts sep (docs, cur, total) d
  = Ok (docs, cur ++ [d], total + (len d + sep_if_more sep 1 (cur ++ [d]))).
Proof. intros E. unfold merge_step. by rewrite E. Qed.

Lemma merge_step_first (docs : list str) (total : Z) (d : str) :
  merge_step ts sep (docs, [], total) d
  = Ok (docs, [d], total + (len d + 0)).
Proof. unfold merge_step. simpl. by destruct (_ >? _). Qed.

Lemma merge_step_emits (docs cur kept : list str) (total total' : Z)
    (d : str) :
  (total + len d + sep_if_more sep 0 cur >? _chunk_size ts) = true ->
  (0 <? length cur)%nat = true ->
  pop_front ts sep (len d) cur total = Ok (kept, total') ->
  merge_step ts sep (docs, cur, total) d
  = Ok (docs ++ option_list (_join_docs cur sep), kept ++ [d],
        total' + (len d + sep_if_more sep 1 (kept ++ [d]))).
Proof. intros E N P. unfold merge_step. by rewrite E, N, P. Qed.

Lemma pop_front_pops (_len : Z) (d0 : str) (rest : list str)
    (total : Z) :
  keep_popping ts sep _len (d0 :: rest) total = true ->
  pop_front ts sep _len (d0 :: rest) total
  = pop_front ts sep _len rest
      (total - (len d0 + sep_if_more sep 1 (d0 :: rest))).
Proof. intros K. by rewrite pop_front_eq, K. Qed.

Lemma pop_front_stops (_len : Z) (cur : list str) (total : Z) :
  keep_popping ts sep _len cur total = false ->
  pop_front ts sep _len cur total = Ok (cur, total).
Proof. intros K. by rewrite pop_front_eq, K. Qed.

End MergeSteps.

(** C6, as the splitter has it: a document of 2500 characters made of
    five lines of 799, 200, 598, 200 and 699 characters, so with its line
    breaks at the offsets 799, 1000, 1599 and 1800, where no chunk would
    begin or end with white space, is cut into exactly three chunks: the
    characters from 0 to 1000, from 800 to 1800 and from 1600 to 2500. *)
Theorem five_lines_give_three_chunks (l1 l2 l3 l4 l5 : str) :
  length l1 = 799%nat -> length l2 = 200%nat ->
  length l3 = 598%nat -> length l4 = 200%nat ->
  length l5 = 699%nat ->
  Forall (fun l => occurs 10%N l = false) [l1; l2; l3; l4; l5] ->
  starts_clean l1 = true -> ends_clean l2 = true ->
  starts_clean l2 = true -> ends_clean l4 = true ->
  starts_clean l4 = true -> ends_clean l5 = true ->
  let doc := l1 ++ newline ++ l2 ++ newline ++ l3 ++ newline
             ++ l4 ++ newline ++ l5 in
  length doc = 2500%nat
  /\ App.get_chunk_text doc
     = Ok [slice 0 1000 doc; slice 800 1800 doc; slice 1600 2500 doc]
  /\ AudioApp.get_chunk_text doc = App.get_chunk_text doc.
Proof.
  intros H1 H2 H3 H4 H5 Hnl S1 E2 S2 E4 S4 E5 doc.
  assert (L1 : len l1 = 799) by (unfold len; lia).
  assert (L2 : len l2 = 200) by (unfold len; lia).
  assert (L3 : len l3 = 598) by (unfold len; lia).
  assert (L4 : len l4 = 200) by (unfold len; lia).
  assert (L5 : len l5 = 699) by (unfold len; lia).
  split_and!; [| |done].
  - unfold doc. rewrite !length_app, H1, H2, H3, H4, H5. done.
  - apply Forall_cons in Hnl as [N1 Hnl]. apply Forall_cons in Hnl as [N2 Hnl].
    apply Forall_cons in Hnl as [N3 Hnl]. apply Forall_cons in Hnl as [N4 Hnl].
    apply Forall_cons in Hnl as [N5 _].
    assert (Hunits : LangChain._split_text doc newline = [l1; l2; l3; l4; l5]).
    { rewrite split_text_newline. unfold doc.
      rewrite !split_line, split_last_line by done.
      repeat (rewrite filter_cons_True by (intros ->; done)). done. }
    unfold App.get_chunk_text.
    set (ts := {| LangChain._separator := newline;
                  LangChain._chunk_size := 1000;
                  LangChain._chunk_overlap := 200 |}).
    change (LangChain.CharacterTextSplitter newline 1000 200) with (Ok ts).
    change (Ok ts ≫= (fun text_splitter =>
                        LangChain.split_text text_splitter doc))
      with (LangChain._merge_splits ts newline
              (LangChain._split_text doc newline)).
    rewrite Hunits. unfold LangChain._merge_splits. cbn [LangChain.merge_loop].
    assert (D1 : slice 0 1000 doc = l1 ++ newline ++ l2).
    { replace doc with ([] ++ (l1 ++ newline ++ l2)
                        ++ newline ++ l3 ++ newline ++ l4 ++ newline ++ l5)
        by (unfold doc; rewrite app_nil_l; by rewrite <- !app_assoc).
      apply slice_middle; [done|]. by rewrite !length_app, H1, H2. }
    assert (D2 : slice 800 1800 doc = l2 ++ newline ++ l3 ++ newline ++ l4).
    { replace doc with ((l1 ++ newline)
                        ++ (l2 ++ newline ++ l3 ++ newline ++ l4)
                        ++ newline ++ l5)
        by (unfold doc; by rewrite <- !app_assoc).
      apply slice_middle; [by rewrite length_app, H1|].
      by rewrite !length_app, H2, H3, H4. }
    assert (D3 : slice 1600 2500 doc = l4 ++ newline ++ l5).
    { replace doc with ((l1 ++ newline ++ l2 ++ newline ++ l3 ++ newline)
                        ++ (l4 ++ newline ++ l5) ++ [])
        by (unfold doc; rewrite app_nil_r; by rewrite <- !app_assoc).
      apply slice_middle; [by rewrite !length_app, H1, H2, H3|].
      by rewrite !length_app, H4, H5. }
    assert (C1 : LangChain._join_docs [l1; l2] newline
                 = Some (slice 0 1000 doc)).
    { rewrite D1, join_docs_clean; cbn [join]; [done| |].
      - by apply starts_clean_app.
      - by do 2 apply ends_clean_app. }
    assert (C2 : LangChain._join_docs [l2; l3; l4] newline
                 = Some (slice 800 1800 doc)).
    { rewrite D2, join_docs_clean; cbn [join]; [done| |].
      - by apply starts_clean_app.
      - by do 4 apply ends_clean_app. }
    assert (C3 : LangChain._join_docs [l4; l5] newline
                 = Some (slice 1600 2500 doc)).
    { rewrite D3, join_docs_clean; cbn [join]; [done| |].
      - by apply starts_clean_app.
      - by do 2 apply ends_clean_app. }
    assert (St1 : LangChain.merge_step ts newline ([], [], 0) l1
                  = Ok ([], [l1], 799)).
    { by rewrite merge_step_first, L1. }
    assert (St2 : LangChain.merge_step ts newline ([], [l1], 799) l2
                  = Ok ([], [l1; l2], 1000)).
    { rewrite merge_step_fits by (by rewrite L2). by rewrite L2. }
    assert (St3 : LangChain.merge_step ts newline ([], [l1; l2], 1000) l3
                  = Ok ([slice 0 1000 doc], [l2; l3], 799)).
    { rewrite (merge_step_emits ts newline _ _ [l2] 1000 200).
      - by rewrite C1, L3.
      - by rewrite L3.
      - done.
      - rewrite pop_front_pops by done. rewrite L1.
        apply pop_front_stops. unfold LangChain.keep_popping.
        by rewrite L3. }
    assert (St4 : LangChain.merge_step ts newline
                    ([slice 0 1000 doc], [l2; l3], 799) l4
                  = Ok ([slice 0 1000 doc], [l2; l3; l4], 1000)).
    { rewrite merge_step_fits by (by rewrite L4). by rewrite L4. }
    assert (St5 : LangChain.merge_step ts newline
                    ([slice 0 1000 doc], [l2; l3; l4], 1000) l5
                  = Ok ([slice 0 1000 doc; slice 800 1800 doc], [l4; l5], 900)).
    { rewrite (merge_step_emits ts newline _ _ [l4] 1000 200).
      - by rewrite C2, L5.
      - by rewrite L5.
      - done.
      - rewrite pop_front_pops by done. rewrite L2.
        rewrite pop_front_pops by done. rewrite L3.
        apply pop_front_stops. unfold LangChain.keep_popping.
        by rewrite L5. }
    rewrite St1. cbn [mbind result_bind]. rewrite St2. cbn [mbind result_bind].
    rewrite St3. cbn [mbind result_bind]. rewrite St4. cbn [mbind result_bind].
    rewrite St5. cbn [mbind result_bind]. by rewrite C3.
Qed.

(** * Further properties of the scripts *)

Ltac run :=
  unfold mbind, M_bind, mret, M_ret, lift, modify, raise, get_world,
    st_write, App.print, session_get, session_set, session_has, new_list;
  simpl.

Section RunProps.
Context `{Externals}.

(** ** A run of [app.py] *)

(** [main] is the rest of the script on the started world. *)
Lemma main_started (q : str) (pdf_files : list (UploadedFile + str))
    (ok : bool) (w : World) :
  App.main q pdf_files ok w
  = ((if decide (q = []) then mret tt else App.handle_user_input q);;
     (if ok then App.process_documents pdf_files else mret tt)) (started w).
Proof.
  unfold App.main, started, ensure. run.
  destruct (session_state w !! "conversation") as [v|] eqn:Hc; simpl.
  - destruct (session_state w !! "chat_history") as [v'|] eqn:Hh; simpl; done.
  - rewrite lookup_insert_ne by done.
    destruct (session_state w !! "chat_history") as [v'|] eqn:Hh; simpl; done.
Qed.

Lemma ensure_lookup_eq (key : string) (m : gmap string value) :
  ensure key m !! key = Some (default VNone (m !! key)).
Proof.
  unfold ensure. destruct (m !! key) as [v|] eqn:E; simpl; [done|].
  by rewrite lookup_insert_eq.
Qed.

Lemma ensure_lookup_ne (key key' : string) (m : gmap string value) :
  key <> key' -> ensure key m !! key' = m !! key'.
Proof.
  intros Hne. unfold ensure. destruct (m !! key) as [v|] eqn:E; [done|].
  by rewrite lookup_insert_ne.
Qed.

Lemma started_conversation (w : World) :
  session_state (started w) !! "conversation"
  = Some (default VNone (session_state w !! "conversation")).
Proof.
  unfold started. simpl. rewrite ensure_lookup_ne by done.
  apply ensure_lookup_eq.
Qed.

Lemma started_chat_history (w : World) :
  session_state (started w) !! "chat_history"
  = Some (default VNone (session_state w !! "chat_history")).
Proof.
  unfold started. simpl. rewrite ensure_lookup_eq.
  by rewrite ensure_lookup_ne.
Qed.

Lemma handle_user_input_cases (q : str) (w : World) :
  is_Some (session_state w !! "chat_history") ->
  match session_state w !! "conversation" with
  | None => App.handle_user_input q w = (Raise "AttributeError", w)
  | Some (VChain c) => ask_outcome (App.handle_user_input q) q c w
  | Some _ => App.handle_user_input q w = (Raise "TypeError", w)
  end.
Proof.
  intros Hh.
  destruct (session_state w !! "conversation") as [[|c|l]|] eqn:Hc.
  - unfold App.handle_user_input. run. by rewrite Hc.
  - by apply handle_user_input_outcome.
  - unfold App.handle_user_input. run. by rewrite Hc.
  - unfold App.handle_user_input. run. by rewrite Hc.
Qed.

Lemma get_chunk_text_total (T : str) :
  exists chunks, App.get_chunk_text T = Ok chunks.
Proof.
  unfold App.get_chunk_text. simpl.
  destruct (split_text_windows
              {| LangChain._separator := newline;
                 LangChain._chunk_size := 1000;
                 LangChain._chunk_overlap := 200 |} T)
    as (wins & E & _); [simpl; lia|].
  by eexists.
Qed.

(** A press of the button that raises leaves the session and the message
    lists as they were. *)
Lemma process_documents_raise (pdf_files : list (UploadedFile + str))
    (w : World) (e : exn) :
  (App.process_documents pdf_files w).1 = Raise e ->
  session_state (App.process_documents pdf_files w).2 = session_state w
  /\ heap (App.process_documents pdf_files w).2 = heap w.
Proof.
  unfold App.process_documents. run.
  pose proof (add_files_frame pdf_files [] w) as [Hs Hh].
  unfold App.get_pdf_text.
  destruct (App.add_files pdf_files [] w) as [[raw_text|e'] w1];
    simpl in *; [|done].
  destruct (App.get_chunk_text raw_text) as [text_chunks|e']; [|done].
  destruct (CSVLoader_load App.csv_path) as [data|e']; [|done].
  destruct (App.get_vector_store data) as [vector_store|e']; [|done].
  simpl. done.
Qed.

Lemma exchanges_app (qa qa' : list (str * str)) :
  exchanges (qa ++ qa') = exchanges qa ++ exchanges qa'.
Proof.
  induction qa as [|[q a] qa IH]; simpl; [done|]. by rewrite IH.
Qed.

(** *** What every run keeps *)



Lemma keeps_bind (m1 m2 : M unit) : keeps m1 -> keeps m2 -> keeps (m1;; m2).
Proof.
  intros K1 K2 w Hw. specialize (K1 w Hw). unfold mbind, M_bind.
  destruct (m1 w) as [[[]|e] w1]; simpl in *; [by apply K2|done].
Qed.

Lemma keeps_ret : keeps (mret tt).
Proof. by intros w Hw. Qed.

Lemma keeps_same (m : M unit) :
  (forall w, session_state (m w).2 = session_state w
             /\ heap (m w).2 = heap w) ->
  keeps m.
Proof.
  intros Hsame w Hw. destruct (Hsame w) as [Hs Hh].
  unfold well_kept, keyed, recorded_turns, read_list. rewrite Hs, Hh.
  exact Hw.
Qed.

Lemma keeps_handle_user_input (q : str) : keeps (App.handle_user_input q).
Proof.
  intros w [[Hc Hh] [Kc Kh]].
  pose proof (handle_user_input_cases q w Kh) as Hcases.
  destruct (session_state w !! "conversation") as [[|c|l]|] eqn:Ec;
    try (rewrite Hcases; simpl; unfold well_kept, keyed; by rewrite Ec).
  unfold ask_outcome in Hcases.
  destruct (chain_answer _ _ _) as [a|e];
    [|rewrite Hcases; simpl; unfold well_kept, keyed; by rewrite Ec].
  rewrite Hcases. simpl. destruct Hc as [qa Hqa].
  unfold well_kept, keyed, recorded_turns, read_list in *. simpl.
  rewrite !lookup_insert_ne by done. rewrite Ec, !lookup_insert_eq. simpl.
  rewrite ?lookup_insert_eq. simpl. rewrite Hqa.
  assert (Hnew : exists qa', exchanges qa ++ [HumanMessage q; AIMessage a]
                             = exchanges qa').
  { exists (qa ++ [(q, a)]). by rewrite exchanges_app. }
  split_and!; done.
Qed.

Lemma keeps_process_documents (pdf_files : list (UploadedFile + str)) :
  keeps (App.process_documents pdf_files).
Proof.
  intros w [[Hc Hh] [Kc Kh]].
  destruct (App.process_documents pdf_files w) as [[[]|e] w'] eqn:Hrun.
  - destruct (process_documents_ok _ _ _ Hrun)
      as (raw_text & w1 & text_chunks & data & vs & _ & _ & _ & _ & ->).
    simpl. set (l := fresh (dom (heap w))).
    assert (Hfresh : heap w !! l = None).
    { apply not_elem_of_dom. apply is_fresh. }
    unfold well_kept, keyed, recorded_turns, read_list in *. simpl.
    rewrite !lookup_insert_eq. rewrite !lookup_insert_ne by done. simpl.
    rewrite ?lookup_insert_eq. simpl.
    split_and!; [by exists []| |done|done].
    destruct (session_state w !! "chat_history") as [[|?|l']|]; try done.
    destruct (decide (l = l')) as [<-|Hne].
    + rewrite lookup_insert_eq. simpl. by exists [].
    + by rewrite lookup_insert_ne.
  - pose proof (process_documents_raise pdf_files w e) as Hsame.
    rewrite Hrun in Hsame. simpl in *. destruct (Hsame eq_refl) as [Hs Hp].
    unfold well_kept, keyed, recorded_turns, read_list. by rewrite Hs, Hp.
Qed.

Lemma started_kept (w : World) :
  well_kept w -> well_kept (started w) /\ keyed (started w).
Proof.
  intros [Hc Hh]. unfold well_kept, keyed.
  rewrite started_conversation, started_chat_history.
  unfold recorded_turns, read_list in *. simpl.
  split_and!; [| |done|done].
  - by destruct (session_state w !! "conversation") as [[|c|l]|].
  - by destruct (session_state w !! "chat_history") as [[|c|l]|].
Qed.

(** One run of [main], whether it returns or raises. *)
Lemma main_keeps_the_session (q : str)
    (pdf_files : list (UploadedFile + str)) (ok : bool) (w : World) :
  well_kept w ->
  well_kept (App.main q pdf_files ok w).2
  /\ keyed (App.main q pdf_files ok w).2.
Proof.
  intros Hw. rewrite main_started.
  assert (K : keeps ((if decide (q = []) then mret tt
                      else App.handle_user_input q);;
                     (if ok then App.process_documents pdf_files
                      else mret tt))).
  { apply keeps_bind.
    - destruct (decide (q = []));
        [apply keeps_ret|apply keeps_handle_user_input].
    - destruct ok; [apply keeps_process_documents|apply keeps_ret]. }
  exact (K (started w) (started_kept w Hw)).
Qed.

(** X1: whatever the runs of [app.py] are, and whether they return or raise,
    the session stays as the script keeps it: under [conversation] there
    is a chain or [None], never something that cannot be called for
    another reason; under [chat_history] a message list or [None]; every
    message list in use is made of whole exchanges, a question followed by
    its answer; and after the first run both keys are there. *)
Theorem runs_keep_the_session
    (inputs : list (str * list (UploadedFile + str) * bool))
    (w : World) :
  well_kept w ->
  well_kept (after_runs inputs w)
  /\ (inputs <> [] ->
      is_Some (session_state (after_runs inputs w) !! "conversation")
      /\ is_Some (session_state (after_runs inputs w) !! "chat_history")).
Proof.
  revert w. induction inputs as [|[[q pdf_files] ok] rest IH]; intros w Hw;
    [done|].
  destruct (main_keeps_the_session q pdf_files ok w Hw) as [Hw1 Hk1].
  destruct (IH _ Hw1) as [Hrest Hkeys]. simpl. split; [done|].
  intros _. destruct rest as [|i rest]; [exact Hk1|by apply Hkeys].
Qed.

(** *** A series of questions *)

Lemma main_without_press (q : str)
    (pdf_files : list (UploadedFile + str)) (w : World) :
  App.main q pdf_files false w
  = if decide (q = []) then (Ok tt, started w)
    else App.handle_user_input q (started w).
Proof.
  rewrite main_started. destruct (decide (q = [])); [done|].
  unfold mbind, M_bind.
  by destruct (App.handle_user_input q (started w)) as [[[]|e] w1].
Qed.

Lemma main_question_only (q : str)
    (pdf_files : list (UploadedFile + str)) (w : World) (c : Chain) :
  session_state w !! "conversation" = Some (VChain c) ->
  let w' := (App.main q pdf_files false w).2 in
  session_state w' !! "conversation" = Some (VChain c)
  /\ match (if decide (q = []) then None
            else match chain_answer (retriever c) q (recorded_turns w c) with
                 | Ok a => Some a
                 | Raise _ => None
                 end) with
     | Some a =>
         recorded_turns w' c
         = recorded_turns w c ++ [HumanMessage q; AIMessage a]
         /\ session_state w' !! "chat_history" = Some (VList (memory c))
     | None =>
         recorded_turns w' c = recorded_turns w c
         /\ session_state w' !! "chat_history"
            = Some (default VNone (session_state w !! "chat_history"))
     end.
Proof.
  intros Hc w'. subst w'. rewrite main_without_press.
  assert (Hc' : session_state (started w) !! "conversation" = Some (VChain c)).
  { by rewrite started_conversation, Hc. }
  pose proof (started_chat_history w) as Hh'.
  assert (Hr : recorded_turns (started w) c = recorded_turns w c) by done.
  destruct (decide (q = [])) as [->|Hq]; [done|].
  assert (Hk : is_Some (session_state (started w) !! "chat_history"))
    by (by rewrite Hh').
  pose proof (handle_user_input_cases q (started w) Hk) as Hcases.
  rewrite Hc' in Hcases. unfold ask_outcome in Hcases. rewrite Hr in Hcases.
  destruct (chain_answer (retriever c) q (recorded_turns w c)) as [a|e];
    rewrite Hcases; [|done].
  unfold recorded_turns, read_list. cbn [snd session_state heap].
  rewrite lookup_insert_ne by done. rewrite !lookup_insert_eq. done.
Qed.

(** X2: after a series of runs with questions and no press of the button, the
    installed chain has recorded, after the exchanges it had, one exchange
    for every non-empty question that the chat model answered, in order,
    and nothing for the questions on which it raised; once a question has
    been answered the turns shown are the turns recorded. *)
Theorem questions_record_the_answered_exchanges
    (questions : list (str * list (UploadedFile + str)))
    (w : World) (c : Chain) (qa : list (str * str)) :
  session_state w !! "conversation" = Some (VChain c) ->
  recorded_turns w c = exchanges qa ->
  let w' := after_runs (map (fun '(q, pdf_files) => (q, pdf_files, false))
                          questions) w in
  let new := answered (retriever c) (exchanges qa) questions.*1 in
  session_state w' !! "conversation" = Some (VChain c)
  /\ recorded_turns w' c = exchanges (qa ++ new)
  /\ (new <> [] -> shown_turns w' = recorded_turns w' c).
Proof.
  intros Hc Hqa w' new. subst w' new.
  assert (Hgen : forall w qa,
    session_state w !! "conversation" = Some (VChain c) ->
    recorded_turns w c = exchanges qa ->
    let w' := after_runs (map (fun '(q, pdf_files) => (q, pdf_files, false))
                            questions) w in
    let new := answered (retriever c) (exchanges qa) questions.*1 in
    session_state w' !! "conversation" = Some (VChain c)
    /\ recorded_turns w' c = exchanges (qa ++ new)
    /\ (new <> []
        \/ session_state w !! "chat_history" = Some (VList (memory c)) ->
        session_state w' !! "chat_history" = Some (VList (memory c)))).
  { clear w qa Hc Hqa.
    induction questions as [|[q pdf_files] rest IH]; intros w qa Hc Hqa.
    - simpl. rewrite app_nil_r. split_and!; [done|done|].
      by intros [?|?].
    - simpl.
      destruct (main_question_only q pdf_files w c Hc) as [Hc1 Hstep].
      rewrite Hqa in Hstep.
      destruct (decide (q = [])) as [->|Hq].
      + destruct Hstep as [Hr Hh].
        destruct (IH _ qa Hc1 (eq_trans Hr eq_refl)) as (IHc & IHr & IHh).
        split_and!; [done|done|].
        intros [Hnew|Hold]; apply IHh; [by left|right].
        by rewrite Hh, Hold.
      + destruct (chain_answer (retriever c) q (exchanges qa)) as [a|e].
        * destruct Hstep as [Hr Hh].
          assert (Hr' : recorded_turns (App.main q pdf_files false w).2 c
                        = exchanges (qa ++ [(q, a)])).
          { by rewrite Hr, exchanges_app. }
          destruct (IH _ _ Hc1 Hr') as (IHc & IHr & IHh).
          rewrite (exchanges_app qa [(q, a)]) in IHr, IHh.
          split_and!; [done| |].
          -- rewrite IHr. by rewrite <- app_assoc.
          -- intros _. apply IHh. by right.
        * destruct Hstep as [Hr Hh].
          destruct (IH _ qa Hc1 (eq_trans Hr eq_refl)) as (IHc & IHr & IHh).
          split_and!; [done|done|].
          intros [Hnew|Hold]; apply IHh; [by left|right].
          by rewrite Hh, Hold. }
  destruct (Hgen w qa Hc Hqa) as (Hc' & Hr' & Hh').
  split_and!; [done|done|].
  intros Hnew. unfold shown_turns. rewrite Hh' by (by left). done.
Qed.

(** *** What an ask shows *)

Lemma rendered_exchanges (i : nat) (qa : list (str * str)) :
  Nat.even i = true -> rendered i (exchanges qa) = page qa.
Proof.
  revert i. induction qa as [|[q a] qa IH]; intros i Hi; [done|].
  cbn [exchanges rendered content]. rewrite Hi.
  assert (Hs : Nat.even (S i) = false).
  { rewrite Nat.even_succ, <- Nat.negb_even. by rewrite Hi. }
  rewrite Hs. rewrite (IH (S (S i))) by exact Hi. done.
Qed.

(** X3: in a session that has its [chat_history] key, when the chain's
    recorded turns are whole exchanges and the chat model answers, the
    handler writes the whole conversation to the page: every question
    through the user template and every answer through the bot template,
    oldest first, the new exchange last. *)
Theorem ask_shows_every_exchange (q a : str) (c : Chain) (w : World)
    (qa : list (str * str)) :
  session_state w !! "conversation" = Some (VChain c) ->
  is_Some (session_state w !! "chat_history") ->
  recorded_turns w c = exchanges qa ->
  chain_answer (retriever c) q (exchanges qa) = Ok a ->
  (App.handle_user_input q w).1 = Ok tt
  /\ trace (App.handle_user_input q w).2
     = trace w ++ page (qa ++ [(q, a)])
  /\ recorded_turns (App.handle_user_input q w).2 c
     = exchanges (qa ++ [(q, a)]).
Proof.
  intros Hc Hh Hqa Ha.
  pose proof (handle_user_input_outcome q c w Hc Hh) as Hout.
  unfold ask_outcome in Hout. rewrite Hqa, Ha in Hout. rewrite Hout.
  cbn [fst snd trace]. unfold recorded_turns, read_list. cbn [heap].
  rewrite lookup_insert_eq. cbn [default].
  assert (E : exchanges qa ++ [HumanMessage q; AIMessage a]
              = exchanges (qa ++ [(q, a)])) by (by rewrite exchanges_app).
  rewrite E. by rewrite rendered_exchanges.
Qed.

(** X13: called on a session that has a chain and no [chat_history] key,
    the handler of [app.py] raises [AttributeError] at its [print] of that
    entry, which comes after the call of the chain: when the chat model
    answered, both turns are in the chain's message list although the ask
    failed, and nothing was written to the page; when the chat model
    raised, its exception comes first and nothing has changed. *)
Theorem ask_without_history_key (q : str) (c : Chain) (w : World) :
  session_state w !! "conversation" = Some (VChain c) ->
  session_state w !! "chat_history" = None ->
  match chain_answer (retriever c) q (recorded_turns w c) with
  | Ok a =>
      App.handle_user_input q w
      = (Raise "AttributeError",
         {| session_state := session_state w;
            heap := <[memory c := recorded_turns w c
                                  ++ [HumanMessage q; AIMessage a]]> (heap w);
            trace := trace w |})
  | Raise e => App.handle_user_input q w = (Raise e, w)
  end.
Proof.
  intros Hc Hv. unfold recorded_turns, App.handle_user_input.
  run. rewrite Hc. simpl.
  unfold LangChain.__call__, LangChain.load_memory_variables,
    LangChain.save_context. run.
  destruct (chain_answer _ _ _) as [a|e]; [|done]. simpl.
  by rewrite Hv.
Qed.

(** *** The two handlers *)

(** X4: the handler of [audio_app.py] passes the session's [chat_history]
    along; that changes nothing as long as the key is there, and raises
    [AttributeError] when it is not. *)
Theorem audio_handler_agrees (q : str) (w : World) :
  (is_Some (session_state w !! "chat_history") ->
   AudioApp.handle_user_input q w = App.handle_user_input q w)
  /\ (session_state w !! "chat_history" = None ->
      is_Some (session_state w !! "conversation") ->
      AudioApp.handle_user_input q w = (Raise "AttributeError", w)).
Proof.
  split.
  - intros Hh.
    destruct (session_state w !! "conversation") as [[|c|l]|] eqn:Hc;
      try (destruct Hh as [v Hv];
           unfold AudioApp.handle_user_input, App.handle_user_input;
           run; by rewrite Hc, ?Hv).
    pose proof (handle_user_input_outcome q c w Hc Hh) as Happ.
    pose proof (audio_handle_user_input_outcome q c w Hc Hh) as Haudio.
    unfold ask_outcome in Happ, Haudio.
    destruct (chain_answer _ _ _) as [a|e]; by rewrite Happ, Haudio.
  - intros Hh [v Hv]. unfold AudioApp.handle_user_input. run.
    by rewrite Hv, Hh.
Qed.

(** *** Reading stops at the first failure *)

Lemma add_pages_app (ps1 ps2 : list Page) (text : str) (w : World) :
  App.add_pages (ps1 ++ ps2) text w
  = match App.add_pages ps1 text w with
    | (Ok text', w') => App.add_pages ps2 text' w'
    | (Raise e, w') => (Raise e, w')
    end.
Proof.
  revert text w. induction ps1 as [|p ps1 IH]; intros text w; [done|].
  simpl. unfold mbind, M_bind.
  destruct (App.call_extract_text p w) as [[t|e] w1]; [apply IH|done].
Qed.

Lemma add_files_app (fs1 fs2 : list (UploadedFile + str)) (text : str)
    (w : World) :
  App.add_files (fs1 ++ fs2) text w
  = match App.add_files fs1 text w with
    | (Ok text', w') => App.add_files fs2 text' w'
    | (Raise e, w') => (Raise e, w')
    end.
Proof.
  revert text w. induction fs1 as [|f fs1 IH]; intros text w; [done|].
  simpl. unfold mbind, M_bind.
  destruct (App.call_PdfReader f w) as [[ps|e] w1]; [|done].
  destruct (App.add_pages ps text w1) as [[t|e] w2]; [apply IH|done].
Qed.

(** X5: when the files before [bad] open and extract and [bad] does not open,
    or opens and has a page that does not extract, [get_pdf_text] raises
    that exception: no text is returned, the files after [bad] are never
    opened and the pages after the failing one are never read. *)
Theorem get_pdf_text_stops_at_first_failure
    (good rest : list (UploadedFile + str)) (bad : UploadedFile + str)
    (pages : list (list Page)) (texts : list (list str)) (e : exn)
    (w : World) :
  Forall2 (fun f ps => PdfReader f = Ok ps) good pages ->
  Forall2 (Forall2 (fun p t => extract_text p = Ok t)) pages texts ->
  (PdfReader bad = Raise e ->
   App.get_pdf_text (good ++ bad :: rest) w
   = (Raise e,
      {| session_state := session_state w; heap := heap w;
         trace := trace w ++ reading_events good pages
                  ++ [EvPdfReader bad] |}))
  /\ (forall (read unread : list Page) (page : Page) (read_texts : list str),
        PdfReader bad = Ok (read ++ page :: unread) ->
        Forall2 (fun p t => extract_text p = Ok t) read read_texts ->
        extract_text page = Raise e ->
        App.get_pdf_text (good ++ bad :: rest) w
        = (Raise e,
           {| session_state := session_state w; heap := heap w;
              trace := trace w ++ reading_events good pages
                       ++ EvPdfReader bad :: map EvExtractText read
                       ++ [EvExtractText page] |})).
Proof.
  intros Hgood Htexts. unfold App.get_pdf_text.
  split.
  - intros Hbad. rewrite add_files_app.
    rewrite (add_files_ok good pages texts) by done.
    simpl. unfold App.call_PdfReader. run. rewrite Hbad. simpl.
    unfold log. simpl. by rewrite <- app_assoc.
  - intros read unread page read_texts Hopen Hread Hpage.
    rewrite add_files_app.
    rewrite (add_files_ok good pages texts) by done.
    simpl. unfold App.call_PdfReader. run. rewrite Hopen. simpl.
    rewrite add_pages_app.
    rewrite (add_pages_ok read read_texts) by done.
    simpl. unfold App.call_extract_text. run. rewrite Hpage. simpl.
    unfold log. simpl. rewrite <- !app_assoc. done.
Qed.

(** *** A press of the button *)

(** X6: a press of the button returns exactly when the uploaded files can be
    read, the CSV file loads and the store can be built from its rows;
    when it raises, the session and the message lists are as before, so a
    chain that was installed stays in use. *)
Theorem press_installs_or_changes_nothing
    (pdf_files : list (UploadedFile + str)) (w : World) :
  ((App.process_documents pdf_files w).1 = Ok tt <->
   (exists raw_text, (App.get_pdf_text pdf_files w).1 = Ok raw_text)
   /\ (exists data vector_store,
         CSVLoader_load App.csv_path = Ok data
         /\ App.get_vector_store data = Ok vector_store))
  /\ (forall e, (App.process_documents pdf_files w).1 = Raise e ->
        session_state (App.process_documents pdf_files w).2 = session_state w
        /\ heap (App.process_documents pdf_files w).2 = heap w).
Proof.
  split; [|apply process_documents_raise].
  split.
  - intros Hrun.
    destruct (App.process_documents pdf_files w) as [r w'] eqn:E.
    simpl in Hrun. subst r.
    destruct (process_documents_ok _ _ _ E)
      as (raw_text & w1 & text_chunks & data & vs & Hp & _ & Hd & Hv & _).
    split; [exists raw_text; by rewrite Hp|by exists data, vs].
  - intros [[raw_text Hp] (data & vs & Hd & Hv)].
    unfold App.process_documents. run.
    destruct (App.get_pdf_text pdf_files w) as [r w1]. simpl in Hp. subst r.
    destruct (get_chunk_text_total raw_text) as [chunks ->].
    rewrite Hd, Hv. done.
Qed.

(** ** A run of [audio_app.py] *)


(** What is read from the files does not depend on the world. *)
Lemma add_pages_result (pages : list Page) (text : str) (w w0 : World) :
  (App.add_pages pages text w).1 = (App.add_pages pages text w0).1.
Proof.
  revert text w w0. induction pages as [|p pages IH]; intros text w w0; [done|].
  simpl. unfold App.call_extract_text. run.
  destruct (extract_text p) as [t|e]; [|done]. simpl. apply IH.
Qed.

Lemma add_files_result (pdf_files : list (UploadedFile + str))
    (text : str) (w w0 : World) :
  (App.add_files pdf_files text w).1 = (App.add_files pdf_files text w0).1.
Proof.
  revert text w w0.
  induction pdf_files as [|f rest IH]; intros text w w0; [done|].
  simpl. unfold App.call_PdfReader. run.
  destruct (PdfReader f) as [ps|e]; [|done]. simpl.
  pose proof (add_pages_result ps text (log (EvPdfReader f) w)
                (log (EvPdfReader f) w0)) as Hp.
  destruct (App.add_pages ps text (log (EvPdfReader f) w)) as [[t|e] w1];
    destruct (App.add_pages ps text (log (EvPdfReader f) w0)) as [[t0|e0] w2];
    simpl in Hp; try done.
  - injection Hp as ->. apply IH.
Qed.

Lemma get_chain_started (w : World) :
  AudioApp.get_chain w
  = (raw_text ← AudioApp.get_pdf_text [inr AudioApp.pdf_path];
     text_chunks ← lift (AudioApp.get_chunk_text raw_text);
     vector_store ← lift (AudioApp.get_vector_store text_chunks);
     chain ← AudioApp.get_conversation_chain vector_store;
     session_set "conversation" (VChain chain)) (with_keys w).
Proof.
  unfold AudioApp.get_chain, with_keys, ensure.
  unfold mbind at 1 2 3 4, M_bind, session_has, session_set, modify, mret,
    M_ret, set_session. simpl.
  destruct (session_state w !! "conversation") as [v|] eqn:Hc; simpl.
  - destruct (session_state w !! "chat_history") as [v'|] eqn:Hh; simpl;
      by rewrite ?world_eta.
  - rewrite lookup_insert_ne by done.
    destruct (session_state w !! "chat_history") as [v'|] eqn:Hh; simpl; done.
Qed.

(** A successful [get_chain]: the store is built from the chunks of the
    text of the one file, and the chain over it starts with an empty
    message list of its own. *)
Lemma get_chain_ok (w w' : World) :
  AudioApp.get_chain w = (Ok tt, w') ->
  exists raw_text text_chunks vector_store,
    (AudioApp.get_pdf_text [inr AudioApp.pdf_path] w).1 = Ok raw_text
    /\ AudioApp.get_chunk_text raw_text = Ok text_chunks
    /\ AudioApp.get_vector_store text_chunks = Ok vector_store
    /\ session_state w'
       = <["conversation" :=
             VChain {| retriever := vector_store;
                       memory := fresh (dom (heap w)) |}]>
           (session_state (with_keys w))
    /\ heap w' = <[fresh (dom (heap w)) := []]> (heap w).
Proof.
  rewrite get_chain_started. unfold AudioApp.get_pdf_text, App.get_pdf_text.
  pose proof (add_files_frame [inr AudioApp.pdf_path] [] (with_keys w))
    as [Hs Hh].
  pose proof (add_files_result [inr AudioApp.pdf_path] []
                (with_keys w) w) as Hr.
  unfold mbind at 1, M_bind.
  destruct (App.add_files [inr AudioApp.pdf_path] [] (with_keys w))
    as [[raw_text|e] w1]; simpl in *; [|done].
  unfold mbind at 1, M_bind, lift.
  destruct (AudioApp.get_chunk_text raw_text) as [text_chunks|e] eqn:Hc;
    [|done].
  unfold mbind at 1, M_bind.
  destruct (AudioApp.get_vector_store text_chunks) as [vs|e] eqn:Hv; [|done].
  unfold AudioApp.get_conversation_chain, App.get_conversation_chain,
    LangChain.ConversationBufferMemory, LangChain.from_llm,
    LangChain.as_retriever. run.
  intros [= <-]. exists raw_text, text_chunks, vs. simpl.
  rewrite Hs, Hh. split_and!; done.
Qed.

End RunProps.

Section AudioProps.
Context `{Externals}.
Variable Audio : Type.
Variable transcribe : Audio -> result str.

(** X7: every run of [audio_app.py] builds its chain anew, so no question is
    asked on an earlier one: when a run returns and [text] was asked (the
    transcript of the recording if there is one, else the non-empty typed
    question), the chat model was given [text] with an empty history, over
    the store built from the chunks of the one file, and the session shows
    exactly that one exchange, whatever it showed before. *)
Theorem audio_run_starts_a_new_conversation (audio : option Audio)
    (question text : str) (w w' : World) :
  AudioRun.script Audio transcribe audio question w = (Ok tt, w') ->
  match audio with
  | Some recording => transcribe recording = Ok text
  | None => question = text /\ text <> []
  end ->
  exists c a raw_text text_chunks,
    session_state w' !! "conversation" = Some (VChain c)
    /\ heap w !! memory c = None
    /\ (AudioApp.get_pdf_text [inr AudioApp.pdf_path] w).1 = Ok raw_text
    /\ AudioApp.get_chunk_text raw_text = Ok text_chunks
    /\ AudioApp.get_vector_store text_chunks = Ok (retriever c)
    /\ chain_answer (retriever c) text [] = Ok a
    /\ recorded_turns w' c = [HumanMessage text; AIMessage a]
    /\ shown_turns w' = [HumanMessage text; AIMessage a].
Proof.
  intros Hrun Hasked. unfold AudioRun.script in Hrun.
  unfold mbind at 1, M_bind in Hrun.
  destruct (AudioApp.get_chain w) as [[[]|e] w1] eqn:Hchain; [|done].
  destruct (get_chain_ok _ _ Hchain)
    as (raw_text & text_chunks & vs & Hp & Hc & Hv & Hs & Hh).
  set (l := fresh (dom (heap w))) in *.
  set (c := {| retriever := vs; memory := l |}) in *.
  assert (Hfresh : heap w !! l = None).
  { apply not_elem_of_dom. apply is_fresh. }
  set (w2 := log (EvWrite css) w1).
  assert (Hconv : session_state w2 !! "conversation" = Some (VChain c)).
  { unfold w2. simpl. rewrite Hs. by rewrite lookup_insert_eq. }
  assert (Hkey : is_Some (session_state w2 !! "chat_history")).
  { unfold w2. simpl. rewrite Hs. rewrite lookup_insert_ne by done.
    unfold with_keys. simpl. rewrite ensure_lookup_eq. by eexists. }
  assert (Hempty : recorded_turns w2 c = []).
  { unfold recorded_turns, read_list, w2. simpl. rewrite Hh.
    by rewrite lookup_insert_eq. }
  assert (Hask : AudioApp.handle_user_input text w2 = (Ok tt, w')).
  { unfold AudioRun.main in Hrun. revert Hrun. run. fold w2.
    destruct audio as [recording|].
    - rewrite Hasked. simpl. done.
    - destruct Hasked as [-> Hne].
      destruct (decide (text = [])); done. }
  pose proof (audio_handle_user_input_outcome text c w2 Hconv Hkey) as Hout.
  unfold ask_outcome in Hout. rewrite Hempty in Hout.
  destruct (chain_answer (retriever c) text []) as [a|e] eqn:Ha;
    rewrite Hask in Hout; [|done].
  injection Hout as ->.
  exists c, a, raw_text, text_chunks.
  unfold recorded_turns, shown_turns, read_list. simpl.
  rewrite lookup_insert_ne by done.
  assert (Hconv' : session_state w1 !! "conversation" = Some (VChain c))
    by exact Hconv.
  rewrite Hconv', !lookup_insert_eq. simpl. rewrite ?lookup_insert_eq.
  split_and!; done.
Qed.

End AudioProps.


(** ** The page templates *)

Lemma startswith_app (sep rest : str) : startswith (sep ++ rest) sep = true.
Proof.
  induction sep as [|c sep IH]; [done|]. simpl. by rewrite N.eqb_refl.
Qed.

Lemma split_go_skip (sep x rest : str) :
  split_go sep (length x) (x ++ rest) = split_go sep 0 rest.
Proof. induction x as [|c x IH]; [done|]. exact IH. Qed.

Lemma split_no_match (sep s : str) :
  has_match sep s = false -> split sep s = [s].
Proof.
  unfold split. induction s as [|c s IH]; [done|].
  change (has_match sep (c :: s))
    with (startswith (c :: s) sep || has_match sep s).
  intros [Hp Hs]%orb_false_elim.
  by rewrite split_go_cons, Hp, (IH Hs).
Qed.

Lemma split_first_match (sep pre post : str) :
  sep <> [] ->
  starts_within sep pre (sep ++ post) = false ->
  split sep (pre ++ sep ++ post) = pre :: split sep post.
Proof.
  intros Hsep. unfold split. induction pre as [|c pre IH].
  - intros _. destruct sep as [|c0 sep]; [done|].
    change ([] ++ (c0 :: sep) ++ post) with (c0 :: (sep ++ post)).
    rewrite split_go_cons.
    change (c0 :: (sep ++ post)) with ((c0 :: sep) ++ post) at 1.
    rewrite startswith_app. f_equal.
    change (length (c0 :: sep) - 1)%nat with (length sep - 0)%nat.
    rewrite Nat.sub_0_r. apply split_go_skip.
  - change (starts_within sep (c :: pre) (sep ++ post))
      with (startswith ((c :: pre) ++ sep ++ post) sep
            || starts_within sep pre (sep ++ post)).
    intros [Hp Hs]%orb_false_elim.
    change ((c :: pre) ++ sep ++ post) with (c :: (pre ++ sep ++ post)) in *.
    by rewrite split_go_cons, Hp, (IH Hs).
Qed.

(** The text is put in place of the one placeholder as it is. *)
Lemma replace_placeholder (old new before after : str) :
  old <> [] ->
  starts_within old before (old ++ after) = false ->
  has_match old after = false ->
  replace old new (before ++ old ++ after) = before ++ new ++ after.
Proof.
  intros Hold Hb Ha. unfold replace.
  by rewrite split_first_match, split_no_match.
Qed.

Section TemplateProps.
Context `{Externals}.

Lemma rendered_blocks (bu au bb ab : str) (i : nat)
    (messages : list Message) :
  user_template = bu ++ lit "{{MSG}}" ++ au ->
  starts_within (lit "{{MSG}}") bu (lit "{{MSG}}" ++ au) = false ->
  has_match (lit "{{MSG}}") au = false ->
  bot_template = bb ++ lit "{{MSG}}" ++ ab ->
  starts_within (lit "{{MSG}}") bb (lit "{{MSG}}" ++ ab) = false ->
  has_match (lit "{{MSG}}") ab = false ->
  rendered i messages = blocks bu au bb ab i messages.
Proof.
  intros Hu Hu1 Hu2 Hb Hb1 Hb2. revert i.
  induction messages as [|m rest IH]; intros i; [done|].
  unfold blocks. rewrite imap_cons. cbn [rendered].
  rewrite Nat.add_0_r. f_equal.
  - f_equal. destruct (Nat.even i).
    + rewrite Hu. by apply replace_placeholder.
    + rewrite Hb. by apply replace_placeholder.
  - rewrite IH. unfold blocks. apply imap_ext. intros j m' _. simpl.
    by rewrite Nat.add_succ_r.
Qed.

(** X8: when each template is some text around one placeholder, the display
    loop writes, for every message, the text of the message between the
    two parts of its template, exactly as it is (nothing is escaped or
    left out), the user template at the even positions and the bot
    template at the odd ones.  When a template has no placeholder the
    message does not appear at all. *)
Theorem messages_are_written_as_they_are (bu au bb ab : str) (i : nat)
    (messages : list Message) (w : World) :
  user_template = bu ++ lit "{{MSG}}" ++ au ->
  starts_within (lit "{{MSG}}") bu (lit "{{MSG}}" ++ au) = false ->
  has_match (lit "{{MSG}}") au = false ->
  bot_template = bb ++ lit "{{MSG}}" ++ ab ->
  starts_within (lit "{{MSG}}") bb (lit "{{MSG}}" ++ ab) = false ->
  has_match (lit "{{MSG}}") ab = false ->
  App.write_messages i messages w
  = (Ok tt,
     {| session_state := session_state w; heap := heap w;
        trace := trace w ++ blocks bu au bb ab i messages |})
  /\ (forall template text : str,
        has_match (lit "{{MSG}}") template = false ->
        replace (lit "{{MSG}}") text template = template).
Proof.
  intros Hu Hu1 Hu2 Hb Hb1 Hb2. split.
  - rewrite write_messages_ok. by rewrite (rendered_blocks bu au bb ab).
  - intros template text Hno. unfold replace. by rewrite split_no_match.
Qed.

End TemplateProps.

(** ** The shape of the chunks *)

Lemma elem_of_concat_2 {A : Type} (x : A) (l : list A) (ls : list (list A)) :
  x ∈ l -> l ∈ ls -> x ∈ concat ls.
Proof.
  intros Hx. induction ls as [|l' ls IH]; [by intros ?%elem_of_nil|].
  simpl. intros [->|Hl]%elem_of_cons; apply elem_of_app; [by left|].
  right. by apply IH.
Qed.

Lemma len_lstrip (s : str) : len (lstrip s) <= len s.
Proof.
  induction s as [|c s IH]; [done|]. simpl.
  destruct (isspace c); [|done]. unfold len in *. simpl. lia.
Qed.

Lemma len_rstrip (s : str) : len (rstrip s) <= len s.
Proof.
  induction s as [|c s IH]; [done|]. simpl.
  destruct (rstrip s) as [|c' r] eqn:E.
  - destruct (isspace c); unfold len in *; simpl in *; lia.
  - unfold len in *. simpl in *. lia.
Qed.

Lemma len_strip (s : str) : len (strip s) <= len s.
Proof.
  unfold strip. pose proof (len_rstrip (lstrip s)). pose proof (len_lstrip s).
  lia.
Qed.

Lemma starts_clean_lstrip (s : str) :
  lstrip s = [] \/ starts_clean (lstrip s) = true.
Proof.
  induction s as [|c s IH]; [by left|]. simpl.
  destruct (isspace c) eqn:E; [done|]. right. simpl. by rewrite E.
Qed.

Lemma rstrip_rstrip (s : str) : rstrip (rstrip s) = rstrip s.
Proof.
  induction s as [|c s IH]; [done|]. simpl.
  destruct (rstrip s) as [|c' r] eqn:E.
  - destruct (isspace c) eqn:Ec; [done|]. simpl. by rewrite Ec.
  - by rewrite rstrip_cons, IH.
Qed.

Lemma starts_clean_rstrip (s : str) :
  starts_clean s = true -> starts_clean (rstrip s) = true.
Proof.
  destruct s as [|c s]; [done|]. simpl. intros Hc.
  destruct (rstrip s); [|done].
  apply negb_true_iff in Hc. rewrite Hc. simpl. by rewrite Hc.
Qed.

(** Stripping twice is stripping once. *)
Lemma strip_strip (s : str) : strip (strip s) = strip s.
Proof.
  unfold strip.
  destruct (starts_clean_lstrip s) as [E|Hs].
  - rewrite E. done.
  - rewrite (lstrip_clean (rstrip (lstrip s)))
      by (by apply starts_clean_rstrip).
    apply rstrip_rstrip.
Qed.

Lemma len_positive (s : str) : s <> [] -> 1 <= len s.
Proof. destruct s; [done|]. intros _. unfold len. simpl. lia. Qed.

Section ChunkShape.
Import LangChain Windows.
Variable ts : TextSplitter.
Variable sep : str.
Hypothesis overlap_nonneg : 0 <= _chunk_overlap ts.


(** The inner loop ends at the longest suffix on which its condition is
    false. *)
Lemma pop_front_longest (_len : Z) (cur : list str) :
  exists kept,
    pop_front ts sep _len cur (len (join sep cur))
      = Ok (kept, len (join sep kept))
    /\ kept `suffix_of` cur
    /\ keep_popping ts sep _len kept (len (join sep kept)) = false
    /\ forall s : list str,
         s `suffix_of` cur -> (length kept < length s)%nat ->
         keep_popping ts sep _len s (len (join sep s)) = true.
Proof using overlap_nonneg.
  induction cur as [|d0 rest IH]; rewrite pop_front_eq.
  - assert (K0 : keep_popping ts sep _len [] (len (join sep [])) = false).
    { unfold keep_popping. change (len (join sep [])) with 0.
      replace (0 >? _chunk_overlap ts) with false by lia.
      by rewrite andb_false_r. }
    exists []. rewrite K0. split_and!; [done|done|done|].
    intros s Hs%suffix_length Hl. simpl in *. lia.
  - destruct (keep_popping _ _ _ _ _) eqn:K.
    + destruct IH as (kept & E & Hsuf & L & Hmax). exists kept.
      replace (len (join sep (d0 :: rest))
               - (len d0 + sep_if_more sep 1 (d0 :: rest)))
        with (len (join sep rest)).
      * split_and!; [done|by apply suffix_cons_r|done|].
        intros s Hs Hl. destruct s as [|x s]; [simpl in Hl; lia|].
        apply suffix_cons_inv in Hs as [[= -> ->]|Hs]; [exact K|].
        by apply Hmax.
      * rewrite len_join_cons. unfold sep_if_more, separator_len.
        cbn [length]. change (1 <? S (length rest))%nat
          with (0 <? length rest)%nat.
        destruct (0 <? length rest)%nat eqn:R; [lia|].
        destruct rest; [change (len (join sep [])) with 0; lia|done].
    + exists (d0 :: rest). split_and!; [done|done|done|].
      intros s Hs%suffix_length Hl. lia.
Qed.

(** Non-empty units have a positive joined length. *)
Lemma len_join_zero (cur : list str) :
  Forall (fun u => u <> []) cur -> len (join sep cur) <= 0 -> cur = [].
Proof.
  destruct cur as [|u cur]; [done|]. intros [Hu _]%Forall_cons Hz.
  apply len_positive in Hu. rewrite len_join_cons in Hz.
  pose proof (len_join_nonneg sep cur). pose proof (len_nonneg sep).
  destruct (0 <? length cur)%nat; lia.
Qed.

(** The loop condition is the negation of [may_stay]. *)
Lemma stay_of_stop (d : str) (kept : list str) :
  Forall (fun u => u <> []) kept ->
  keep_popping ts sep (len d) kept (len (join sep kept)) = false ->
  may_stay ts sep d kept.
Proof.
  intros Hne K. unfold keep_popping in K.
  apply orb_false_elim in K as [K1 K2]. split; [lia|].
  apply andb_false_iff in K2 as [K2|K2].
  - right. rewrite len_join_snoc. unfold sep_if_more, separator_len in K2.
    lia.
  - left. apply len_join_zero; [done|lia].
Qed.

Lemma no_stay_of_pop (d : str) (s : list str) :
  keep_popping ts sep (len d) s (len (join sep s)) = true ->
  ~ may_stay ts sep d s.
Proof.
  intros K [H1 H2]. unfold keep_popping in K.
  apply orb_true_iff in K as [K|K]; [lia|].
  apply andb_true_iff in K as [K1 K2].
  destruct H2 as [->|H2].
  - change (len (join sep [])) with 0 in K2. lia.
  - rewrite len_join_snoc in H2. unfold sep_if_more, separator_len in K1.
    lia.
Qed.

(** *** How consecutive windows are linked *)

Lemma follows_grow (p : window) (carry fresh : list str) (d : str) :
  follows ts sep p (carry, fresh) -> follows ts sep p (carry, fresh ++ [d]).
Proof.
  intros (d1 & rest & E & Hover & Hsuf & Hstay & Hmax).
  simpl in E. subst fresh. by exists d1, (rest ++ [d]).
Qed.

Lemma linked_grow (wins : list window) (carry fresh : list str) (d : str) :
  linked ts sep (wins ++ [(carry, fresh)]) ->
  linked ts sep (wins ++ [(carry, fresh ++ [d])]).
Proof.
  intros Hl j p w Hp Hw.
  destruct (decide (S j < length wins)%nat) as [Hlt|Hge].
  - rewrite lookup_app_l in Hp, Hw by lia.
    apply (Hl j); by rewrite lookup_app_l by lia.
  - assert (Hj : S j = length wins).
    { apply lookup_lt_Some in Hw. rewrite length_app in Hw. simpl in Hw. lia. }
    rewrite lookup_app_l in Hp by lia.
    rewrite lookup_app_r, Hj, Nat.sub_diag in Hw by lia. injection Hw as <-.
    apply follows_grow. apply (Hl j).
    + by rewrite lookup_app_l by lia.
    + by rewrite lookup_app_r, Hj, Nat.sub_diag by lia.
Qed.

Lemma linked_emit (wins : list window) (w x : window) :
  linked ts sep (wins ++ [w]) -> follows ts sep w x ->
  linked ts sep ((wins ++ [w]) ++ [x]).
Proof.
  intros Hl Hf j p y Hp Hy.
  destruct (decide (S j < length (wins ++ [w]))%nat) as [Hlt|Hge].
  - rewrite lookup_app_l in Hp, Hy by lia. by apply (Hl j).
  - assert (Hj : S j = length (wins ++ [w])).
    { apply lookup_lt_Some in Hy. rewrite length_app in Hy. simpl in Hy. lia. }
    rewrite lookup_app_r, Hj, Nat.sub_diag in Hy by lia. injection Hy as <-.
    rewrite length_app in Hj. simpl in Hj.
    assert (j = length wins) as -> by lia.
    rewrite lookup_app_l in Hp by (rewrite length_app; simpl; lia).
    rewrite lookup_app_r, Nat.sub_diag in Hp by lia. by injection Hp as <-.
Qed.

Lemma window_step_linking
    (st : list window * list str * list str * Z) (d : str) :
  linking ts sep st -> d <> [] ->
  exists st', window_step ts sep st d = Ok st' /\ linking ts sep st'.
Proof using overlap_nonneg.
  destruct st as [[[wins carry] fresh] total].
  intros (-> & Hne & Hl) Hd. unfold window_step.
  assert (Hstay : linking ts sep
            (wins, carry, fresh ++ [d],
             len (join sep (carry ++ fresh))
             + (len d + sep_if_more sep 1 ((carry ++ fresh) ++ [d])))).
  { split_and!.
    - by rewrite total_snoc, app_assoc.
    - rewrite app_assoc. apply Forall_app.
      split; [done|by apply Forall_singleton].
    - by apply linked_grow. }
  destruct (_ >? _chunk_size ts) eqn:Hover;
    [|eexists; split; [reflexivity|done]].
  destruct (0 <? length (carry ++ fresh))%nat eqn:Hlen;
    [|eexists; split; [reflexivity|done]].
  destruct (pop_front_longest (len d) (carry ++ fresh))
    as (kept & -> & Hsuf & K & Hmax).
  eexists; split; [reflexivity|].
  assert (Hkept : Forall (fun u => u <> []) kept).
  { destruct Hsuf as [k0 Hk]. rewrite Hk in Hne.
    by apply Forall_app in Hne as [_ ?]. }
  simpl. rewrite app_nil_r. split_and!.
  - by rewrite total_snoc.
  - apply Forall_app. split; [done|by apply Forall_singleton].
  - apply linked_emit; [done|]. exists d, []. split_and!.
    + done.
    + unfold units. simpl. rewrite len_join_snoc.
      unfold sep_if_more, separator_len in Hover. lia.
    + done.
    + by apply stay_of_stop.
    + intros s Hs Hlong. apply no_stay_of_pop. by apply Hmax.
Qed.

Lemma window_loop_linking (splits : list str)
    (st : list window * list str * list str * Z) :
  linking ts sep st -> Forall (fun u => u <> []) splits ->
  exists st', window_loop ts sep splits st = Ok st' /\ linking ts sep st'.
Proof using overlap_nonneg.
  revert st. induction splits as [|d rest IH]; intros st Hst Hne.
  - by exists st.
  - apply Forall_cons in Hne as [Hd Hrest].
    destruct (window_step_linking st d Hst Hd) as (st1 & E1 & H1).
    destruct (IH st1 H1 Hrest) as (st2 & E2 & H2).
    exists st2. simpl. by rewrite E1.
Qed.

(** The windows of non-empty units are linked as described. *)
Lemma merge_windows_linked (splits : list str) (wins : list window) :
  Forall (fun u => u <> []) splits ->
  merge_windows ts sep splits = Ok wins ->
  linked ts sep wins.
Proof using overlap_nonneg.
  intros Hne. unfold merge_windows.
  destruct (window_loop_linking splits ([], [], [], 0))
    as ([[[wins' carry] fresh] total] & -> & _ & _ & Hl).
  { split_and!; [done|done|]. by intros [|j] p w Hp Hw. }
  { done. }
  simpl. by intros [= <-].
Qed.

Lemma fits_snoc (kept : list str) (d : str) :
  Forall (fun u => u <> []) kept ->
  keep_popping ts sep (len d) kept (len (join sep kept)) = false ->
  fits ts sep (kept ++ [d]).
Proof.
  intros Hne K. unfold keep_popping in K.
  apply orb_false_elim in K as [_ K]. apply andb_false_iff in K as [K|K].
  - left. rewrite len_join_snoc. unfold sep_if_more, separator_len in K. lia.
  - destruct kept as [|u kept]; [right; simpl; lia|].
    apply Forall_cons in Hne as [Hu _]. apply len_positive in Hu.
    rewrite len_join_cons in K.
    pose proof (len_join_nonneg sep kept). pose proof (len_nonneg sep).
    destruct (0 <? length kept)%nat; lia.
Qed.

Lemma window_step_fitting
    (st : list window * list str * list str * Z) (d : str) :
  fitting ts sep st -> d <> [] ->
  exists st', window_step ts sep st d = Ok st' /\ fitting ts sep st'.
Proof using overlap_nonneg.
  destruct st as [[[wins carry] fresh] total].
  intros (-> & Hne & Hfit & Hwins) Hd. unfold window_step.
  destruct (_ >? _chunk_size ts) eqn:Hover.
  - destruct (0 <? length (carry ++ fresh))%nat eqn:Hlen.
    + destruct (pop_front_longest (len d) (carry ++ fresh))
        as (kept & -> & [k0 Hsuf] & K & _).
      eexists; split; [reflexivity|].
      assert (Hkept : Forall (fun u => u <> []) kept).
      { rewrite Hsuf in Hne. by apply Forall_app in Hne as [_ ?]. }
      simpl. rewrite app_nil_r. split_and!.
      * by rewrite total_snoc.
      * apply Forall_app. split; [done|by apply Forall_singleton].
      * by apply fits_snoc.
      * apply Forall_app. split; [done|by apply Forall_singleton].
    + eexists; split; [reflexivity|].
      assert (Hnil : carry ++ fresh = []).
      { destruct (carry ++ fresh); [done|simpl in Hlen; done]. }
      apply app_eq_nil in Hnil as [-> ->]. simpl. split_and!.
      * change (len []) with 0.
        change (sep_if_more sep 1 [d]) with 0. lia.
      * by apply Forall_singleton.
      * right. simpl. lia.
      * done.
  - eexists; split; [reflexivity|]. split_and!.
    + by rewrite total_snoc, app_assoc.
    + rewrite app_assoc. apply Forall_app.
      split; [done|by apply Forall_singleton].
    + left. rewrite app_assoc, <- total_snoc, sep_if_more_snoc. lia.
    + done.
Qed.

Lemma window_loop_fitting (splits : list str)
    (st : list window * list str * list str * Z) :
  fitting ts sep st -> Forall (fun u => u <> []) splits ->
  exists st', window_loop ts sep splits st = Ok st' /\ fitting ts sep st'.
Proof using overlap_nonneg.
  revert st. induction splits as [|d rest IH]; intros st Hst Hne.
  - by exists st.
  - apply Forall_cons in Hne as [Hd Hrest].
    destruct (window_step_fitting st d Hst Hd) as (st1 & E1 & H1).
    destruct (IH st1 H1 Hrest) as (st2 & E2 & H2).
    exists st2. simpl. by rewrite E1.
Qed.

(** Every window of non-empty units respects the chunk size or is a
    single unit. *)
Lemma merge_windows_fit (splits : list str) (wins : list window) :
  Forall (fun u => u <> []) splits ->
  merge_windows ts sep splits = Ok wins ->
  Forall (fun w => fits ts sep (units w)) wins.
Proof using overlap_nonneg.
  intros Hne. unfold merge_windows.
  destruct (window_loop_fitting splits ([], [], [], 0))
    as ([[[wins' carry] fresh] total] & -> & _ & _ & Hfit & Hwins).
  { split_and!; [done|done|right; simpl; lia|done]. }
  { done. }
  simpl. intros [= <-]. apply Forall_app.
  split; [done|by apply Forall_singleton].
Qed.

(** The units of every window are units of the text. *)
Lemma window_units_from_splits (splits : list str) (wins : list window) :
  concat (wins.*2) = splits -> carried_ok ts sep wins ->
  forall (i : nat) (w : window), wins !! i = Some w ->
    forall u, u ∈ units w -> u ∈ splits.
Proof.
  intros Hcat Hok.
  assert (Hnew : forall w u, w ∈ wins -> u ∈ w.2 -> u ∈ splits).
  { intros w u Hw Hu. rewrite <- Hcat.
    apply (elem_of_concat_2 u w.2); [done|].
    by apply list_elem_of_fmap_2. }
  intros i. induction i as [|j IH]; intros w Hw u Hu;
    destruct (Hok _ w Hw) as [_ Hcarry];
    apply elem_of_app in Hu as [Hu|Hu];
    try (apply (Hnew w u); [by eapply list_elem_of_lookup_2|done]).
  - rewrite Hcarry in Hu. by apply elem_of_nil in Hu.
  - destruct Hcarry as (p & Hp & Hsuf).
    apply (IH p Hp). by eapply elem_of_suffix.
Qed.

End ChunkShape.

Lemma split_text_units_nonempty (T sep : str) :
  Forall (fun u => u <> []) (LangChain._split_text T sep).
Proof.
  apply Forall_forall. intros u Hu. unfold LangChain._split_text in Hu.
  by apply list_elem_of_filter in Hu as [Hu _].
Qed.

Lemma split_go_nonempty (sep : str) (k : nat) (s : str) :
  split_go sep k s <> [].
Proof.
  revert k. induction s as [|c s IH]; intros k; [done|].
  destruct k as [|k]; [|apply IH].
  rewrite split_go_cons. destruct (startswith (c :: s) sep); [done|].
  by destruct (split_go sep 0 s).
Qed.

Lemma join_head (sep : str) (c : char) (p : str) (ps : list str) :
  join sep ((c :: p) :: ps) = c :: join sep (p :: ps).
Proof. by destruct ps. Qed.

(** Joining the lines of a text with line breaks gives the text back. *)
Lemma join_split_newline (s : str) : join newline (split newline s) = s.
Proof.
  unfold split. induction s as [|c s IH]; [done|].
  rewrite split_go_cons, startswith_newline.
  pose proof (split_go_nonempty newline 0 s) as Hne.
  destruct (10 =? c)%N eqn:E.
  - apply N.eqb_eq in E as <-.
    change (length newline - 1)%nat with 0%nat.
    destruct (split_go newline 0 s) as [|p ps] eqn:Es; [done|].
    change (join newline ([] :: p :: ps))
      with (newline ++ join newline (p :: ps)).
    by rewrite IH.
  - destruct (split_go newline 0 s) as [|p ps] eqn:Es; [done|].
    by rewrite join_head, IH.
Qed.

(** No line has a line break in it. *)
Lemma split_newline_lines (T : str) :
  Forall (fun l => occurs 10%N l = false) (split newline T).
Proof.
  unfold split. induction T as [|c T IH]; [by repeat constructor|].
  rewrite split_go_cons, startswith_newline.
  destruct (10 =? c)%N eqn:E; [by constructor|].
  pose proof (split_go_nonempty newline 0 T) as Hne.
  destruct (split_go newline 0 T) as [|p ps]; [done|].
  apply Forall_cons in IH as [Hp Hps]. constructor; [|done].
  by rewrite occurs_cons, E, Hp.
Qed.

(** C5, as the splitter has it: for a valid configuration the chunks are
    the joined and stripped windows of the text's units (the non-empty
    pieces between separators).  The windows' new parts, one after the
    other, are the units of the text, so every unit is in a window.  A
    window is closed when the next unit would make it longer than the
    chunk size, and not before: no window is longer than the chunk size
    unless it is a single unit.  What the next window shares with the
    closed one is the longest run of whole units from its end that is no
    longer than the overlap when joined and that leaves room for that
    next unit; this may be nothing.  With the scripts' configuration this
    is [get_chunk_text], and the units are the non-empty lines of the
    text. *)
Theorem chunks_are_windows_of_units (separator T : str)
    (chunk_size chunk_overlap : Z) :
  0 < chunk_size -> 0 <= chunk_overlap < chunk_size ->
  exists ts wins,
    LangChain.CharacterTextSplitter separator chunk_size chunk_overlap = Ok ts
    /\ LangChain.split_text ts T
       = Ok (omap (fun w => LangChain._join_docs (Windows.units w) separator)
               wins)
    /\ concat (wins.*2) = LangChain._split_text T separator
    /\ (forall u, u ∈ LangChain._split_text T separator ->
          exists w, w ∈ wins /\ u ∈ Windows.units w)
    /\ (forall (i : nat) (w : Windows.window), wins !! i = Some w ->
          len (join separator w.1) <= chunk_overlap
          /\ match i with
             | O => w.1 = []
             | S j => exists p, wins !! j = Some p
                                /\ w.1 `suffix_of` Windows.units p
             end)
    /\ (forall (j : nat) (p w : Windows.window),
          wins !! j = Some p -> wins !! S j = Some w ->
          exists (d : str) (rest : list str),
            w.2 = d :: rest
            /\ chunk_size < len (join separator (Windows.units p ++ [d]))
            /\ (w.1 = [] \/ len (join separator (w.1 ++ [d])) <= chunk_size)
            /\ forall s : list str,
                 s `suffix_of` Windows.units p ->
                 (length w.1 < length s)%nat ->
                 chunk_overlap < len (join separator s)
                 \/ chunk_size < len (join separator (s ++ [d])))
    /\ (forall w : Windows.window, w ∈ wins ->
          len (join separator (Windows.units w)) <= chunk_size
          \/ (length (Windows.units w) <= 1)%nat)
    /\ (separator = newline ->
        exists lines : list str,
          join newline lines = T
          /\ Forall (fun l => occurs 10%N l = false) lines
          /\ LangChain._split_text T separator
             = filter (fun l => l <> []) lines)
    /\ (separator = newline -> chunk_size = 1000 -> chunk_overlap = 200 ->
        App.get_chunk_text T = LangChain.split_text ts T).
Proof.
  intros Hsize [Hov Hlt].
  set (ts := {| LangChain._separator := separator;
                LangChain._chunk_size := chunk_size;
                LangChain._chunk_overlap := chunk_overlap |}).
  destruct (merge_windows_spec ts separator Hov
              (LangChain._split_text T separator))
    as (wins & E & Hcat & Hok).
  pose proof (merge_windows_linked ts separator Hov _ _
                (split_text_units_nonempty T separator) E) as Hlinked.
  exists ts, wins. split_and!.
  - unfold LangChain.CharacterTextSplitter.
    by replace (chunk_overlap >? chunk_size) with false by lia.
  - unfold LangChain.split_text. cbn [LangChain._separator ts].
    by rewrite merge_splits_windows, E.
  - done.
  - intros u Hu. rewrite <- Hcat in Hu.
    apply elem_of_concat_1 in Hu as (f & Hf & Hu).
    apply list_elem_of_fmap in Hf as (w & -> & Hw).
    exists w. split; [done|]. unfold Windows.units. set_solver.
  - exact Hok.
  - intros j p w Hp Hw.
    destruct (Hlinked j p w Hp Hw)
      as (d & rest & E2 & Hover & _ & [_ Hroom] & Hmax).
    exists d, rest. split_and!; [done|done|done|].
    intros s Hs Hlong.
    destruct (Z_le_gt_dec (len (join separator s)) chunk_overlap)
      as [Hle|Hgt]; [|left; lia].
    destruct (Z_le_gt_dec (len (join separator (s ++ [d]))) chunk_size)
      as [Hle'|Hgt']; [|right; lia].
    destruct (Hmax s Hs Hlong). split; [done|by right].
  - pose proof (merge_windows_fit ts separator Hov _ _
                  (split_text_units_nonempty T separator) E) as Hfit.
    rewrite Forall_forall in Hfit. intros w Hw. exact (Hfit w Hw).
  - intros ->. exists (split newline T).
    split_and!; [apply join_split_newline|apply split_newline_lines|done].
  - intros -> -> ->. done.
Qed.

(** X9: [get_chunk_text] returns chunks for every text; every chunk is
    non-empty and has no white space at either end, and every chunk is at
    most 1000 characters long unless it is a single line of the text,
    stripped, that is longer on its own. *)
Theorem chunks_fit_or_are_single_lines (T : str) :
  exists chunks : list str,
    App.get_chunk_text T = Ok chunks
    /\ forall chunk, chunk ∈ chunks ->
         chunk <> []
         /\ strip chunk = chunk
         /\ (len chunk <= 1000
             \/ exists line, line ∈ LangChain._split_text T newline
                             /\ chunk = strip line).
Proof.
  set (ts := {| LangChain._separator := newline;
                LangChain._chunk_size := 1000;
                LangChain._chunk_overlap := 200 |}).
  assert (Hov : 0 <= LangChain._chunk_overlap ts) by (simpl; lia).
  change (App.get_chunk_text T)
    with (LangChain._merge_splits ts newline
            (LangChain._split_text T newline)).
  rewrite merge_splits_windows.
  destruct (merge_windows_spec ts newline Hov
              (LangChain._split_text T newline))
    as (wins & E & Hcat & Hok).
  rewrite E. simpl. eexists. split; [reflexivity|]. intros chunk Hin.
  apply list_elem_of_omap in Hin as (w & Hw & Hjoin).
  unfold LangChain._join_docs in Hjoin.
  destruct (decide (strip (join newline (Windows.units w)) = []))
    as [|Hne]; [done|].
  injection Hjoin as <-. split_and!; [done|apply strip_strip|].
  pose proof (merge_windows_fit ts newline Hov _ _
                (split_text_units_nonempty T newline) E) as Hfit.
  rewrite Forall_forall in Hfit. destruct (Hfit w Hw) as [Hlen|Hone].
  - left. pose proof (len_strip (join newline (Windows.units w))).
    simpl in Hlen. lia.
  - right. apply list_elem_of_lookup_1 in Hw as [i Hi].
    pose proof (window_units_from_splits ts newline _ wins Hcat Hok i w Hi)
      as Hunits.
    destruct (Windows.units w) as [|u [|u' rest]] eqn:Eu.
    + done.
    + exists u. split; [apply Hunits; apply list_elem_of_here|done].
    + simpl in Hone. lia.
Qed.

(** ** Short texts *)

Lemma len_join_filter (sep : str) (P : str -> Prop)
    `{forall x, Decision (P x)} (l : list str) :
  len (join sep (filter P l)) <= len (join sep l).
Proof.
  induction l as [|x l IH]; [done|].
  pose proof (len_nonneg sep). pose proof (len_nonneg x).
  pose proof (len_join_nonneg sep l).
  pose proof (len_join_nonneg sep (filter P l)).
  assert (Hlen : (length (filter P l) <= length l)%nat)
    by apply length_filter.
  destruct (decide (P x)) as [Hx|Hx].
  - rewrite filter_cons_True by done. rewrite !len_join_cons.
    destruct (0 <? length (filter P l))%nat eqn:E1;
      destruct (0 <? length l)%nat eqn:E2; try lia.
    apply Nat.ltb_lt in E1. apply Nat.ltb_ge in E2. lia.
  - rewrite filter_cons_False by done. rewrite len_join_cons.
    destruct (0 <? length l)%nat eqn:E2; [lia|].
    destruct l as [|y l]; [|done].
    change (len (join sep (filter P []))) with 0. lia.
Qed.

Lemma len_join_prefix (sep : str) (a b : list str) :
  len (join sep a) <= len (join sep (a ++ b)).
Proof.
  induction b as [|x b IH] using rev_ind; [by rewrite app_nil_r|].
  rewrite app_assoc, len_join_snoc.
  pose proof (len_nonneg sep). pose proof (len_nonneg x).
  destruct (0 <? length (a ++ b))%nat; lia.
Qed.

(** Units that fit the chunk size together are never cut. *)
Lemma merge_loop_fits (ts : LangChain.TextSplitter) (sep : str)
    (rest docs cur : list str) :
  len (join sep (cur ++ rest)) <= LangChain._chunk_size ts ->
  LangChain.merge_loop ts sep rest (docs, cur, len (join sep cur))
  = Ok (docs, cur ++ rest, len (join sep (cur ++ rest))).
Proof.
  revert cur. induction rest as [|d rest IH]; intros cur Hfit.
  - by rewrite app_nil_r.
  - cbn [LangChain.merge_loop]. rewrite merge_step_fits.
    + cbn [mbind result_bind]. rewrite total_snoc.
      replace (cur ++ d :: rest) with ((cur ++ [d]) ++ rest) in *
        by (by rewrite <- app_assoc).
      by apply IH.
    + pose proof (len_join_prefix sep (cur ++ [d]) rest) as Hpre.
      replace ((cur ++ [d]) ++ rest) with (cur ++ d :: rest) in Hpre
        by (by rewrite <- app_assoc).
      rewrite <- total_snoc, sep_if_more_snoc in Hpre. lia.
Qed.

(** X10: a text of at most 1000 characters is never cut: [get_chunk_text]
    returns at most one chunk, the non-empty lines of the text joined by
    line breaks and stripped, or nothing when that is empty. *)
Theorem short_text_is_one_chunk (T : str) :
  (length T <= 1000)%nat ->
  App.get_chunk_text T
  = Ok (option_list
          (LangChain._join_docs (LangChain._split_text T newline) newline)).
Proof.
  intros Hshort.
  set (ts := {| LangChain._separator := newline;
                LangChain._chunk_size := 1000;
                LangChain._chunk_overlap := 200 |}).
  change (App.get_chunk_text T)
    with (LangChain._merge_splits ts newline
            (LangChain._split_text T newline)).
  unfold LangChain._merge_splits.
  change 0 with (len (join newline [])) at 1.
  rewrite merge_loop_fits; [done|].
  cbn [app]. rewrite split_text_newline.
  pose proof (len_join_filter newline (fun s => s <> [])
                (split newline T)) as Hf.
  rewrite join_split_newline in Hf. unfold len in Hf at 2.
  change (LangChain._chunk_size ts) with 1000. etrans; [exact Hf|lia].
Qed.

(** X11: a text without a line break is never cut, however long it is: it is
    one chunk, stripped, or no chunk when it is only white space. *)
Theorem text_without_line_break_is_never_cut (T : str) :
  occurs 10%N T = false ->
  App.get_chunk_text T
  = Ok (if decide (strip T = []) then [] else [strip T]).
Proof.
  intros Hno.
  set (ts := {| LangChain._separator := newline;
                LangChain._chunk_size := 1000;
                LangChain._chunk_overlap := 200 |}).
  change (App.get_chunk_text T)
    with (LangChain._merge_splits ts newline
            (LangChain._split_text T newline)).
  rewrite split_text_newline, split_last_line by done.
  destruct (decide (T = [])) as [->|Hne].
  - done.
  - rewrite filter_cons_True by done. rewrite filter_nil.
    unfold LangChain._merge_splits. cbn [LangChain.merge_loop].
    rewrite merge_step_first. cbn [mbind result_bind].
    unfold LangChain._join_docs. cbn [join app].
    by destruct (decide (strip T = [])).
Qed.

Section PressProps.
Context `{Externals}.

(** X12: when a run has both a question and a press of the button, the
    question comes first: it is answered by the chain that was installed,
    on its store and its history, and the answer is what the session
    shows; the new chain, with an empty history of its own, is installed
    only after that. *)
Theorem question_is_answered_before_the_press (q : str)
    (pdf_files : list (UploadedFile + str)) (c : Chain) (w w' : World) :
  session_state w !! "conversation" = Some (VChain c) ->
  q <> [] ->
  App.main q pdf_files true w = (Ok tt, w') ->
  exists a c',
    chain_answer (retriever c) q (recorded_turns w c) = Ok a
    /\ session_state w' !! "conversation" = Some (VChain c')
    /\ memory c' <> memory c
    /\ recorded_turns w' c' = []
    /\ recorded_turns w' c
       = recorded_turns w c ++ [HumanMessage q; AIMessage a]
    /\ shown_turns w' = recorded_turns w' c.
Proof.
  intros Hc Hq. rewrite main_started.
  destruct (decide (q = [])) as [?|_]; [done|].
  assert (Hc' : session_state (started w) !! "conversation" = Some (VChain c)).
  { by rewrite started_conversation, Hc. }
  assert (Hk : is_Some (session_state (started w) !! "chat_history"))
    by (by rewrite started_chat_history).
  pose proof (handle_user_input_outcome q c (started w) Hc' Hk) as Hout.
  unfold ask_outcome in Hout.
  change (recorded_turns (started w) c) with (recorded_turns w c) in Hout.
  unfold mbind at 1, M_bind.
  destruct (chain_answer (retriever c) q (recorded_turns w c)) as [a|e];
    rewrite Hout; [|done].
  intros Hrun.
  destruct (process_documents_ok _ _ _ Hrun)
    as (raw_text & w1 & text_chunks & data & vs & _ & _ & _ & _ & ->).
  cbn [heap session_state] in *.
  change (heap (started w)) with (heap w) in *.
  set (turns := recorded_turns w c ++ [HumanMessage q; AIMessage a]).
  set (l := fresh (dom (<[memory c := turns]> (heap w)))).
  assert (Hl : l <> memory c).
  { intros E. pose proof (is_fresh (dom (<[memory c := turns]> (heap w)))) as F.
    fold l in F. rewrite E in F. apply F, elem_of_dom.
    rewrite lookup_insert_eq. by eexists. }
  exists a, {| retriever := vs; memory := l |}.
  unfold shown_turns, read_list.
  change (recorded_turns w c ++ [HumanMessage q; AIMessage a]) with turns.
  unfold recorded_turns, read_list.
  cbn [heap session_state memory].
  repeat (first [ rewrite lookup_insert_eq
                | rewrite lookup_insert_ne by done ]; cbn [default]).
  split_and!; done.
Qed.

End PressProps.

(** * The claims on concrete runs *)

Import Demo.

(** C1 as stated fails: on a new session the first question is answered by
    a [TypeError], which is not the error the claim names. *)
Lemma first_ask_raises_TypeError_not_NotReadyError :
  (App.main (lit "what is this about?") [] false w0).1 = Raise "TypeError"
  /\ App.handle_user_input (lit "what is this about?") w_started
     = (Raise "TypeError", w_started)
  /\ (App.handle_user_input (lit "what is this about?") w_started).1
     <> Raise "NotReadyError".
Proof. split_and!; [by vm_compute|by vm_compute|by vm_compute]. Qed.

Lemma ask_without_chain_witness :
  App.handle_user_input (lit "what is this about?") w_started
  = (Raise "TypeError", w_started).
Proof.
  apply (proj1 (ask_without_chain_raises_TypeError (H := env))). reflexivity.
Defined.

(** C2 as stated fails: the exception of the chat model reaches the caller
    under its own name. *)
Lemma failed_ask_keeps_the_exception :
  session_state w_ready !! "conversation" = Some (VChain chain_ready)
  /\ chain_answer (retriever chain_ready) (lit "fail")
       (recorded_turns w_ready chain_ready)
     = Raise "APIConnectionError"
  /\ App.handle_user_input (lit "fail") w_ready
     = (Raise "APIConnectionError", w_ready)
  /\ (App.handle_user_input (lit "fail") w_ready).1 <> Raise "UpstreamError".
Proof. split_and!; by vm_compute. Qed.

Lemma ask_appends_two_turns_witness :
  match chain_answer (retriever chain_ready) (lit "what is this about?")
          (recorded_turns w_ready chain_ready) with
  | Ok a =>
      exists w', App.handle_user_input (lit "what is this about?") w_ready
                 = (Ok tt, w')
        /\ recorded_turns w' chain_ready
           = recorded_turns w_ready chain_ready
             ++ [HumanMessage (lit "what is this about?"); AIMessage a]
        /\ shown_turns w' = recorded_turns w' chain_ready
        /\ session_state w' !! "conversation" = Some (VChain chain_ready)
  | Raise e =>
      App.handle_user_input (lit "what is this about?") w_ready
      = (Raise e, w_ready)
  end.
Proof.
  apply (ask_appends_two_turns_or_raises (H := env)
           (lit "what is this about?") chain_ready
           w_ready (App.handle_user_input (lit "what is this about?"))).
  - reflexivity.
  - vm_compute. by eexists.
  - left. reflexivity.
Defined.

(** C3 as stated fails: after a question has been answered, pressing the
    button again leaves the two turns under [chat_history]. *)
Lemma reprocessing_keeps_the_shown_turns :
  shown_turns w_asked
  = [HumanMessage (lit "what is this about?");
     AIMessage (lit "answer to what is this about?")]
  /\ (App.process_documents [] w_asked).1 = Ok tt
  /\ shown_turns (App.process_documents [] w_asked).2
     = [HumanMessage (lit "what is this about?");
        AIMessage (lit "answer to what is this about?")]
  /\ shown_turns (App.process_documents [] w_asked).2 <> [].
Proof. split_and!; by vm_compute. Qed.

Lemma process_documents_witness :
  exists data vector_store chain,
    CSVLoader_load App.csv_path = Ok data
    /\ App.get_vector_store data = Ok vector_store
    /\ session_state (after (App.process_documents []) w_asked)
         !! "conversation" = Some (VChain chain)
    /\ retriever chain = vector_store
    /\ heap w_asked !! memory chain = None
    /\ recorded_turns (after (App.process_documents []) w_asked) chain = []
    /\ session_state (after (App.process_documents []) w_asked)
         !! "chat_history" = session_state w_asked !! "chat_history"
    /\ shown_turns (after (App.process_documents []) w_asked)
       = shown_turns w_asked.
Proof.
  apply (process_documents_installs_fresh_chain (H := env) [] w_asked).
  vm_compute. reflexivity.
Defined.

Lemma index_from_csv_witness :
  (exists data embeddings vector_store chain raw_text text_chunks,
     CSVLoader_load App.csv_path = Ok data
     /\ HuggingFaceInstructEmbeddings App.model_name = Ok embeddings
     /\ FAISS_from_documents data embeddings = Ok vector_store
     /\ session_state (after (App.process_documents Sample.upload) w_started)
          !! "conversation" = Some (VChain chain)
     /\ retriever chain = vector_store
     /\ (App.get_pdf_text Sample.upload w_started).1 = Ok raw_text
     /\ App.get_chunk_text raw_text = Ok text_chunks)
  /\ session_state (after (App.process_documents Sample.upload) w_started)
     = session_state (after (App.process_documents []) w_started)
  /\ heap (after (App.process_documents Sample.upload) w_started)
     = heap (after (App.process_documents []) w_started).
Proof.
  apply (index_is_built_from_the_csv_only (H := env)
           Sample.upload [] w_started).
  - vm_compute. reflexivity.
  - vm_compute. reflexivity.
Defined.

Lemma get_pdf_text_witness :
  App.get_pdf_text Sample.two_files w0
  = (Ok (text_of (concat [[lit "page 1"; lit "page 2"]; [lit "page 3"]])),
     {| session_state := session_state w0; heap := heap w0;
        trace := trace w0
                 ++ reading_events Sample.two_files
                      [[lit "page 1"; lit "page 2"]; [lit "page 3"]] |}).
Proof.
  apply (proj1 (get_pdf_text_concatenates_pages (H := env))).
  - repeat constructor.
  - repeat constructor.
Defined.

(** C5 as stated fails on two lines of 999 characters: each line is a
    chunk of its own, the chunks share nothing, the line break is in
    neither, and the chunks do not give the text back. *)
Lemma two_long_lines_share_nothing :
  let T := rep 999 (ch "a") ++ newline ++ rep 999 (ch "b") in
  let chunks := [rep 999 (ch "a"); rep 999 (ch "b")] in
  App.get_chunk_text T = Ok chunks
  /\ ~ chunks_overlap_by 200 chunks
  /\ ~ every_char_in_a_chunk T chunks
  /\ non_overlapping_text 200 chunks <> T.
Proof.
  intros T chunks. split_and!.
  - by vm_compute.
  - intros Hov.
    specialize (Hov 0%nat (rep 999 (ch "a")) (rep 999 (ch "b"))
                  eq_refl eq_refl).
    vm_compute in Hov. discriminate Hov.
  - intros Hall. destruct (Hall 10%N) as (chunk & Hin & Hocc).
    + by vm_compute.
    + apply elem_of_cons in Hin as [->|Hin]; [by vm_compute in Hocc|].
      apply elem_of_cons in Hin as [->|Hin]; [by vm_compute in Hocc|].
      by apply elem_of_nil in Hin.
  - intros E. apply (f_equal length) in E. by vm_compute in E.
Qed.

(** On ten lines of 150 characters the second chunk starts with the last
    line of the first: the only run of lines from the end of the first
    window that is no longer than 200 characters. *)
Lemma chunks_are_windows_witness :
  App.get_chunk_text (join newline Sample.ten_lines)
  = Ok [join newline (take 6 Sample.ten_lines);
        join newline (drop 5 Sample.ten_lines)]
  /\ exists ts wins,
       LangChain.CharacterTextSplitter newline 1000 200 = Ok ts
       /\ LangChain.split_text ts (join newline Sample.ten_lines)
          = Ok (omap (fun w => LangChain._join_docs (Windows.units w) newline)
                  wins)
       /\ concat (wins.*2)
          = LangChain._split_text (join newline Sample.ten_lines) newline
       /\ (forall u,
             u ∈ LangChain._split_text (join newline Sample.ten_lines)
                   newline ->
             exists w, w ∈ wins /\ u ∈ Windows.units w)
       /\ (forall (i : nat) (w : Windows.window), wins !! i = Some w ->
             len (join newline w.1) <= 200
             /\ match i with
                | O => w.1 = []
                | S j => exists p, wins !! j = Some p
                                   /\ w.1 `suffix_of` Windows.units p
                end)
       /\ (forall (j : nat) (p w : Windows.window),
             wins !! j = Some p -> wins !! S j = Some w ->
             exists (d : str) (rest : list str),
               w.2 = d :: rest
               /\ 1000 < len (join newline (Windows.units p ++ [d]))
               /\ (w.1 = [] \/ len (join newline (w.1 ++ [d])) <= 1000)
               /\ forall s : list str,
                    s `suffix_of` Windows.units p ->
                    (length w.1 < length s)%nat ->
                    200 < len (join newline s)
                    \/ 1000 < len (join newline (s ++ [d])))
       /\ (forall w : Windows.window, w ∈ wins ->
             len (join newline (Windows.units w)) <= 1000
             \/ (length (Windows.units w) <= 1)%nat)
       /\ (newline = newline ->
           exists lines : list str,
             join newline lines = join newline Sample.ten_lines
             /\ Forall (fun l => occurs 10%N l = false) lines
             /\ LangChain._split_text (join newline Sample.ten_lines) newline
                = filter (fun l => l <> []) lines)
       /\ (newline = newline -> 1000 = 1000 -> 200 = 200 ->
           App.get_chunk_text (join newline Sample.ten_lines)
           = LangChain.split_text ts (join newline Sample.ten_lines)).
Proof.
  split; [by vm_compute|].
  apply (chunks_are_windows_of_units newline (join newline Sample.ten_lines)
           1000 200); lia.
Defined.

(** C6 as stated fails on 2500 characters without a line break: they are
    one chunk. *)
Lemma text_without_line_break_is_one_chunk :
  let doc := rep 2500 (ch "a") in
  length doc = 2500%nat
  /\ App.get_chunk_text doc = Ok [doc]
  /\ App.get_chunk_text doc
     <> Ok [slice 0 1000 doc; slice 800 1800 doc; slice 1600 2500 doc].
Proof.
  intros doc. split_and!.
  - by vm_compute.
  - by vm_compute.
  - intros E.
    assert (E' : App.get_chunk_text doc = Ok [doc]) by (by vm_compute).
    rewrite E' in E.
    apply (f_equal (fun r => match r with
                             | Ok l => length l
                             | Raise _ => 0%nat
                             end)) in E.
    discriminate E.
Qed.

Lemma five_lines_witness :
  let doc := rep 799 Sample.bullet ++ newline ++ rep 200 (ch "b") ++ newline
             ++ rep 598 Sample.a_grave ++ newline ++ rep 200 (ch "d")
             ++ newline ++ rep 699 (ch "e") in
  length doc = 2500%nat
  /\ App.get_chunk_text doc
     = Ok [slice 0 1000 doc; slice 800 1800 doc; slice 1600 2500 doc]
  /\ AudioApp.get_chunk_text doc = App.get_chunk_text doc.
Proof.
  apply (five_lines_give_three_chunks (rep 799 Sample.bullet)
           (rep 200 (ch "b")) (rep 598 Sample.a_grave) (rep 200 (ch "d"))
           (rep 699 (ch "e")));
    try (vm_compute; reflexivity).
  repeat constructor; vm_compute; reflexivity.
Defined.

(** * The further properties on concrete runs *)

Lemma runs_keep_the_session_witness :
  well_kept (after_runs (H := env) Sample.three_runs w0)
  /\ (Sample.three_runs <> [] ->
      is_Some (session_state (after_runs (H := env) Sample.three_runs w0)
                 !! "conversation")
      /\ is_Some (session_state (after_runs (H := env) Sample.three_runs w0)
                    !! "chat_history")).
Proof.
  apply (runs_keep_the_session (H := env)).
  unfold well_kept. simpl. done.
Defined.

Lemma questions_record_witness :
  let w' := after_runs (H := env)
              (map (fun '(q, pdf_files) => (q, pdf_files, false))
                 Sample.four_questions) w_ready in
  let new := answered (retriever chain_ready) (exchanges [])
               Sample.four_questions.*1 in
  session_state w' !! "conversation" = Some (VChain chain_ready)
  /\ recorded_turns w' chain_ready = exchanges ([] ++ new)
  /\ (new <> [] -> shown_turns w' = recorded_turns w' chain_ready).
Proof.
  apply (questions_record_the_answered_exchanges (H := env)
           Sample.four_questions w_ready chain_ready []).
  - reflexivity.
  - reflexivity.
Defined.

Lemma ask_shows_every_exchange_witness :
  (App.handle_user_input (lit "and then?") w_asked).1 = Ok tt
  /\ trace (App.handle_user_input (lit "and then?") w_asked).2
     = trace w_asked
       ++ page (Sample.first_exchange
                ++ [(lit "and then?", lit "answer to and then?")])
  /\ recorded_turns (App.handle_user_input (lit "and then?") w_asked).2
       chain_ready
     = exchanges (Sample.first_exchange
                  ++ [(lit "and then?", lit "answer to and then?")]).
Proof.
  apply (ask_shows_every_exchange (H := env) (lit "and then?")
           (lit "answer to and then?") chain_ready w_asked
           Sample.first_exchange).
  - reflexivity.
  - vm_compute. by eexists.
  - vm_compute. reflexivity.
  - reflexivity.
Defined.

Lemma audio_handler_agrees_witness :
  AudioApp.handle_user_input (lit "what is this about?") w_ready
  = App.handle_user_input (lit "what is this about?") w_ready.
Proof.
  apply (proj1 (audio_handler_agrees (H := env)
                  (lit "what is this about?") w_ready)).
  vm_compute. by eexists.
Defined.

Lemma get_pdf_text_stops_witness :
  App.get_pdf_text (H := Desk.env)
    (Sample.upload ++ Sample.second_file :: [inl [lit "page 5"]]) Desk.w0
  = (Raise "PdfReadError",
     {| session_state := session_state Desk.w0; heap := heap Desk.w0;
        trace := trace Desk.w0
                 ++ reading_events (H := Desk.env) Sample.upload
                      [[lit "page 1"]]
                 ++ EvPdfReader (H := Desk.env) Sample.second_file
                    :: map (EvExtractText (H := Desk.env)) [lit "page 2"]
                 ++ [EvExtractText (H := Desk.env) (lit "unreadable")] |}).
Proof.
  apply (proj2 (get_pdf_text_stops_at_first_failure (H := Desk.env)
                  Sample.upload [inl [lit "page 5"]] Sample.second_file
                  [[lit "page 1"]] [[lit "page 1"]] "PdfReadError" Desk.w0
                  ltac:(repeat constructor) ltac:(repeat constructor))
           [lit "page 2"] [lit "page 4"] (lit "unreadable") [lit "page 2"]).
  - reflexivity.
  - repeat constructor.
  - reflexivity.
Defined.

Lemma press_witness :
  (App.process_documents Sample.upload w_asked).1 = Ok tt.
Proof.
  apply (proj1 (press_installs_or_changes_nothing (H := env)
                  Sample.upload w_asked)).
  split.
  - eexists. vm_compute. reflexivity.
  - eexists _, _. split; vm_compute; reflexivity.
Defined.

Lemma audio_run_witness :
  exists c a raw_text text_chunks,
    session_state
      (AudioRun.script (H := Desk.env) str Desk.transcribe
         (Some (lit "what is this about?")) (lit "typed") Desk.w0).2
      !! "conversation" = Some (VChain c)
    /\ heap Desk.w0 !! memory c = None
    /\ (AudioApp.get_pdf_text (H := Desk.env) [inr AudioApp.pdf_path]
          Desk.w0).1 = Ok raw_text
    /\ AudioApp.get_chunk_text raw_text = Ok text_chunks
    /\ AudioApp.get_vector_store (H := Desk.env) text_chunks
       = Ok (retriever c)
    /\ chain_answer (retriever c) (lit "what is this about?") [] = Ok a
    /\ recorded_turns
         (AudioRun.script (H := Desk.env) str Desk.transcribe
            (Some (lit "what is this about?")) (lit "typed") Desk.w0).2 c
       = [HumanMessage (lit "what is this about?"); AIMessage a]
    /\ shown_turns
         (AudioRun.script (H := Desk.env) str Desk.transcribe
            (Some (lit "what is this about?")) (lit "typed") Desk.w0).2
       = [HumanMessage (lit "what is this about?"); AIMessage a].
Proof.
  apply (audio_run_starts_a_new_conversation (H := Desk.env) str
           Desk.transcribe (Some (lit "what is this about?")) (lit "typed")
           (lit "what is this about?") Desk.w0).
  - vm_compute. reflexivity.
  - reflexivity.
Defined.

Lemma messages_written_witness :
  App.write_messages 0 Sample.marked_up w0
  = (Ok tt,
     {| session_state := session_state w0; heap := heap w0;
        trace := trace w0
                 ++ blocks (lit "<div class=user>") (lit "</div>")
                      (lit "<div class=bot>") (lit "</div>") 0
                      Sample.marked_up |}).
Proof.
  apply (proj1 (messages_are_written_as_they_are (H := env)
                  (lit "<div class=user>") (lit "</div>")
                  (lit "<div class=bot>") (lit "</div>") 0
                  Sample.marked_up w0
                  eq_refl eq_refl eq_refl eq_refl eq_refl eq_refl)).
Defined.

(** Two lines of 999 characters, the first of bullets: two chunks, each a
    line. *)
Lemma chunks_fit_witness :
  App.get_chunk_text (rep 999 Sample.bullet ++ newline ++ rep 999 (ch "b"))
  = Ok [rep 999 Sample.bullet; rep 999 (ch "b")]
  /\ exists chunks,
       App.get_chunk_text
         (rep 999 Sample.bullet ++ newline ++ rep 999 (ch "b")) = Ok chunks
       /\ forall chunk, chunk ∈ chunks ->
            chunk <> []
            /\ strip chunk = chunk
            /\ (len chunk <= 1000
                \/ exists line,
                     line ∈ LangChain._split_text
                              (rep 999 Sample.bullet ++ newline
                               ++ rep 999 (ch "b")) newline
                     /\ chunk = strip line).
Proof.
  split; [by vm_compute|].
  apply (chunks_fit_or_are_single_lines
           (rep 999 Sample.bullet ++ newline ++ rep 999 (ch "b"))).
Defined.

(** Two lines of 400 bullets are 801 characters: one chunk. *)
Lemma short_text_witness :
  length Sample.bullets = 801%nat
  /\ App.get_chunk_text Sample.bullets = Ok [Sample.bullets]
  /\ App.get_chunk_text Sample.bullets
     = Ok (option_list
             (LangChain._join_docs
                (LangChain._split_text Sample.bullets newline) newline)).
Proof.
  split_and!; [by vm_compute|by vm_compute|].
  apply (short_text_is_one_chunk Sample.bullets).
  vm_compute. lia.
Defined.

(** The em space in front is stripped, the accented letter at the end is
    kept. *)
Lemma never_cut_witness :
  App.get_chunk_text (Sample.em_space :: lit "voil" ++ [Sample.a_grave])
  = Ok [lit "voil" ++ [Sample.a_grave]]
  /\ App.get_chunk_text (Sample.em_space :: lit "voil" ++ [Sample.a_grave])
     = Ok (if decide (strip (Sample.em_space :: lit "voil"
                             ++ [Sample.a_grave]) = [])
           then []
           else [strip (Sample.em_space :: lit "voil"
                        ++ [Sample.a_grave])]).
Proof.
  split; [by vm_compute|].
  apply (text_without_line_break_is_never_cut
           (Sample.em_space :: lit "voil" ++ [Sample.a_grave])).
  vm_compute. reflexivity.
Defined.

Lemma question_before_press_witness :
  exists a c',
    chain_answer (retriever chain_ready) (lit "what is this about?")
      (recorded_turns w_ready chain_ready) = Ok a
    /\ session_state
         (App.main (lit "what is this about?") Sample.upload true w_ready).2
         !! "conversation" = Some (VChain c')
    /\ memory c' <> memory chain_ready
    /\ recorded_turns
         (App.main (lit "what is this about?") Sample.upload true w_ready).2
         c'
       = []
    /\ recorded_turns
         (App.main (lit "what is this about?") Sample.upload true w_ready).2
         chain_ready
       = recorded_turns w_ready chain_ready
         ++ [HumanMessage (lit "what is this about?"); AIMessage a]
    /\ shown_turns
         (App.main (lit "what is this about?") Sample.upload true w_ready).2
       = recorded_turns
           (App.main (lit "what is this about?") Sample.upload true w_ready).2
           chain_ready.
Proof.
  apply (question_is_answered_before_the_press (H := env)
           (lit "what is this about?") Sample.upload chain_ready w_ready).
  - reflexivity.
  - done.
  - vm_compute. reflexivity.
Defined.

(** The exchange is recorded although the ask fails. *)
Lemma ask_without_history_key_witness :
  match chain_answer (retriever chain_ready) (lit "what is this about?")
          (recorded_turns Sample.no_history_key chain_ready) with
  | Ok a =>
      App.handle_user_input (lit "what is this about?") Sample.no_history_key
      = (Raise "AttributeError",
         {| session_state := session_state Sample.no_history_key;
            heap := <[memory chain_ready :=
                        recorded_turns Sample.no_history_key chain_ready
                        ++ [HumanMessage (lit "what is this about?");
                            AIMessage a]]>
                      (heap Sample.no_history_key);
            trace := trace Sample.no_history_key |})
  | Raise e =>
      App.handle_user_input (lit "what is this about?") Sample.no_history_key
      = (Raise e, Sample.no_history_key)
  end.
Proof.
  apply (ask_without_history_key (H := env) (lit "what is this about?")
           chain_ready Sample.no_history_key).
  - reflexivity.
  - reflexivity.
Defined.
